(** * isign bundle re-signing: a shallow embedding of [isign/bundle.py]

    The development follows the source file top to bottom: plist values and
    the Python primitives the module relies on, the [posixpath] helpers, the
    file store and the interpreter state, then the classes [Bundle],
    [Framework], [App] and [AppEx] with their methods, and finally the
    properties of these methods. *)

From Stdlib Require Import ZArith Ascii String.
From stdpp Require Import gmap strings list fin_maps.

#[local] Set Warnings "-register-all".
#[local] Open Scope string_scope.
#[local] Open Scope Z_scope.
#[local] Open Scope stdpp_scope.

(** ** Plist values

    [biplist] decodes a property list into Python strings, integers, lists
    and dictionaries with string keys.  Python booleans are integers
    ([True == 1]), so they are carried by [VInt]; floats, dates and binary
    data do not occur in the keys this module inspects and are left out. *)

Inductive value : Type :=
  | VStr (s : string)
  | VInt (z : Z)
  | VList (l : list value)
  | VDict (d : gmap string value).

Module Py.

(** Python [==] on plist values: structural on strings, integers and
    lists, extensional on dictionaries. *)
Fixpoint eqb (x y : value) {struct x} : bool :=
  match x, y with
  | VStr a, VStr b => bool_decide (a = b)
  | VInt a, VInt b => bool_decide (a = b)
  | VList l1, VList l2 =>
      (fix go (l1 l2 : list value) {struct l1} : bool :=
         match l1, l2 with
         | [], [] => true
         | a :: l1, b :: l2 => eqb a b && go l1 l2
         | _, _ => false
         end) l1 l2
  | VDict d1, VDict d2 =>
      bool_decide (dom d1 = dom d2) &&
      map_fold (fun k v acc =>
                  acc && match d2 !! k with
                         | Some w => eqb v w
                         | None => false
                         end) true d1
  | _, _ => false
  end.

(** Size of a value, the measure for induction under dictionaries. *)
Fixpoint size (v : value) : nat :=
  match v with
  | VStr _ | VInt _ => 1
  | VList l => S (foldr (fun x n => size x + n) 0 l)
  | VDict d => S (map_fold (fun _ x n => size x + n) 0 d)
  end%nat.

(** [s.startswith(p)]. *)
Fixpoint startswith (p s : string) : bool :=
  match p, s with
  | EmptyString, _ => true
  | String a p', String b s' => bool_decide (a = b) && startswith p' s'
  | String _ _, EmptyString => false
  end.

(** [s.endswith(c)] for a one-character suffix. *)
Fixpoint endswith_char (c : ascii) (s : string) : bool :=
  match s with
  | EmptyString => false
  | String a EmptyString => bool_decide (a = c)
  | String _ s' => endswith_char c s'
  end.

(** [hay.find(needle)]: index of the first occurrence, or -1. *)
Fixpoint find_from (needle hay : string) (i : Z) : Z :=
  if startswith needle hay then i
  else match hay with
       | EmptyString => -1
       | String _ hay' => find_from needle hay' (i + 1)
       end.

Definition find (needle hay : string) : Z := find_from needle hay 0.

(** [hay.rfind(c)] for a one-character needle: last index, or -1. *)
Fixpoint rfind_char_from (c : ascii) (s : string) (i last : Z) : Z :=
  match s with
  | EmptyString => last
  | String a s' =>
      rfind_char_from c s' (i + 1) (if bool_decide (a = c) then i else last)
  end.

Definition rfind_char (c : ascii) (s : string) : Z :=
  rfind_char_from c s 0 (-1).

Fixpoint drop (n : nat) (s : string) : string :=
  match n, s with
  | O, _ => s
  | S n', String _ s' => drop n' s'
  | S _, EmptyString => EmptyString
  end.

Fixpoint take (n : nat) (s : string) : string :=
  match n, s with
  | S n', String a s' => String a (take n' s')
  | _, _ => EmptyString
  end.

Definition len (s : string) : Z := Z.of_nat (String.length s).

(** A slice bound as Python resolves it: negative bounds count from the
    end, and the result is clamped to [0, len]. *)
Definition clamp (n : Z) (i : Z) : Z :=
  let j := if i <? 0 then i + n else i in
  Z.max 0 (Z.min n j).

(** [s[b:e]]. *)
Definition slice (b e : Z) (s : string) : string :=
  let b' := clamp (len s) b in
  let e' := clamp (len s) e in
  take (Z.to_nat (e' - b')) (drop (Z.to_nat b') s).

(** [s[b:]]. *)
Definition slice_from (b : Z) (s : string) : string :=
  drop (Z.to_nat (clamp (len s) b)) s.

(** [s[:e]]. *)
Definition slice_to (e : Z) (s : string) : string :=
  take (Z.to_nat (clamp (len s) e)) s.

(** [s.split(c)] for a one-character separator: never the empty list. *)
Fixpoint split (c : ascii) (s : string) : list string :=
  match s with
  | EmptyString => [EmptyString]
  | String a s' =>
      if bool_decide (a = c) then EmptyString :: split c s'
      else match split c s' with
           | h :: t => String a h :: t
           | [] => [String a EmptyString]
           end
  end.

(** [sep.join(l)]. *)
Fixpoint join (sep : string) (l : list string) : string :=
  match l with
  | [] => EmptyString
  | [x] => x
  | x :: l' => x +:+ sep +:+ join sep l'
  end.

(** The characters of a string as one-character strings: what iterating
    over a [str] yields. *)
Fixpoint chars (s : string) : list string :=
  match s with
  | EmptyString => []
  | String a s' => String a EmptyString :: chars s'
  end.

End Py.

(** ** Exceptions and dynamically typed access *)

Inductive exn : Type :=
  | NotMatched                              (* exceptions.NotMatched *)
  | KeyError (key : string)
  | TypeError
  | AttributeError (name : string)
  | IOError (path : string)
  | OSError (path : string)
  | AssertionError                          (* "mobileprovision format error" *)
  | InvalidPlistException
  | CouldNotFindExecutable (path : string)  (* Exception('could not find executable ...') *)
  | ShutilError
  | SealFailure                             (* a failure inside code_resources *)
  | SignFailure                             (* a failure inside signable *)
  | RecursionLimit.                         (* maximum recursion depth exceeded *)

Inductive result (A : Type) : Type :=
  | Ok (a : A)
  | Raise (e : exn).
Arguments Ok {A} a.
Arguments Raise {A} e.

Module Dyn.

(** [needle in v] for a string needle: key membership on a dictionary,
    element membership on a list, substring on a string; an integer is
    not iterable. *)
Definition contains (needle : string) (v : value) : result bool :=
  match v with
  | VDict d => Ok (bool_decide (is_Some (d !! needle)))
  | VList l => Ok (existsb (Py.eqb (VStr needle)) l)
  | VStr s => Ok (0 <=? Py.find needle s)
  | VInt _ => Raise TypeError
  end.

(** [v[key]] for a string key. *)
Definition getitem (v : value) (key : string) : result value :=
  match v with
  | VDict d =>
      match d !! key with
      | Some x => Ok x
      | None => Raise (KeyError key)
      end
  | _ => Raise TypeError
  end.

(** [for x in v]: the elements of a list, the keys of a dictionary, the
    characters of a string. *)
Definition iter (v : value) : result (list value) :=
  match v with
  | VList l => Ok l
  | VDict d => Ok (VStr <$> (map_to_list d).*1)
  | VStr s => Ok (VStr <$> Py.chars s)
  | VInt _ => Raise TypeError
  end.

End Dyn.

(** ** [os.path] on POSIX *)

Module PosixPath.

(** [join(a, b)]. *)
Definition join (a b : string) : string :=
  if Py.startswith "/" b then b
  else if bool_decide (a = "") || Py.endswith_char "/" a then a +:+ b
  else a +:+ "/" +:+ b.

(** [basename(p)]: [p[p.rfind('/') + 1:]]. *)
Definition basename (p : string) : string :=
  Py.slice_from (Py.rfind_char "/" p + 1) p.

(** The scan of [genericpath._splitext] for a character other than the
    extension separator in [p[i:dot]]. *)
Definition has_non_dot (p : string) (i dot : Z) : bool :=
  existsb (fun c => negb (bool_decide (c = ".")))
          (Py.chars (Py.slice i dot p)).

(** [splitext(p)]. *)
Definition splitext (p : string) : string * string :=
  let sepIndex := Py.rfind_char "/" p in
  let dotIndex := Py.rfind_char "." p in
  if (sepIndex <? dotIndex) && has_non_dot p (sepIndex + 1) dotIndex
  then (Py.slice_to dotIndex p, Py.slice_from dotIndex p)
  else (p, "").

End PosixPath.

(** ** The file store, the objects and the interpreter state *)

Inductive node : Type :=
  | File (data : string)
  | Dir.

Inductive bundle_class : Type :=
  | ClsFramework
  | ClsApp
  | ClsAppEx.

(** The attributes of a bundle object.  The last five are set by
    [App.__init__] and [App.load_provision_data]; [None] stands for an
    attribute the object does not have. *)
Record bundle : Type := {
  cls : bundle_class;
  path : string;
  info_path : string;
  info : gmap string value;
  orig_info : option (gmap string value);
  seal_path : option string;
  new_appid : option (option value);
  entitlements_path : option string;
  provision_path : option string;
  new_provision : option value;
  new_provision_path : option string }.

(** The classes of [signable] a bundle hands its binaries to. *)
Inductive signable : Type :=
  | Dylib
  | Framework
  | Executable.

(** What the orchestrator does to the outside world, in order. *)
Inductive event : Type :=
  | WritePlist (root : value) (file : string) (binary : bool)
  | CopyFile (src dst : string)
  | MakeSeal (executable bundle_path : string)
  | Sign (target : signable) (owner : bundle) (file : string).

Record state : Type := {
  self : bundle;
  fs : gmap string node;
  log : list event }.

(** The collaborators of the module: directory enumeration, the plist
    codec, the seal builder and the signature generator. *)
Class Platform : Type := {
  listdir : gmap string node -> string -> option (list string);
  glob : gmap string node -> string -> list string;
  readPlistFromString : string -> option value;
  writePlistToString : value -> bool -> string;
  make_seal : gmap string node -> string -> string -> option string;
  signable_sign : signable -> bundle -> string -> gmap string node -> bool }.

(** *** A state and exception monad *)

Definition M (A : Type) : Type := state -> result A * state.

Definition ret {A} (a : A) : M A := fun s => (Ok a, s).

Definition raise {A} (e : exn) : M A := fun s => (Raise e, s).

Definition bind {A B} (m : M A) (k : A -> M B) : M B :=
  fun s =>
    match m s with
    | (Ok a, s') => k a s'
    | (Raise e, s') => (Raise e, s')
    end.

Declare Scope py_scope.
Delimit Scope py_scope with py.
Notation "x <- m ;; k" := (bind m (fun x => k))
  (at level 100, m at next level, right associativity) : py_scope.
Notation "m ;; k" := (bind m (fun _ => k))
  (at level 100, right associativity) : py_scope.
#[local] Open Scope py_scope.

Definition lift {A} (r : result A) : M A := fun s => (r, s).

Definition get_self : M bundle := fun s => (Ok (self s), s).

Definition set_self (b : bundle) : M unit :=
  fun s => (Ok tt, {| self := b; fs := fs s; log := log s |}).

Definition get_fs : M (gmap string node) := fun s => (Ok (fs s), s).

Definition emit (e : event) : M unit :=
  fun s => (Ok tt, {| self := self s; fs := fs s; log := log s ++ [e] |}).

(** Reading an attribute the object may lack. *)
Definition getattr {A} (name : string) (field : bundle -> option A) : M A :=
  fun s =>
    match field (self s) with
    | Some a => (Ok a, s)
    | None => (Raise (AttributeError name), s)
    end.

(** [try: m except NotMatched: continue]. *)
Definition except_NotMatched (m : M unit) : M unit :=
  fun s =>
    match m s with
    | (Raise NotMatched, s') => (Ok tt, s')
    | r => r
    end.

(** Running a method of another object: the callee sees its own [self],
    the caller keeps its own. *)
Definition on {A} (b : bundle) (m : M A) : M A :=
  fun s =>
    let '(r, s') := m {| self := b; fs := fs s; log := log s |} in
    (r, {| self := self s; fs := fs s'; log := log s' |}).

Fixpoint for_each {A} (l : list A) (body : A -> M unit) : M unit :=
  match l with
  | [] => ret tt
  | x :: l' => body x ;; for_each l' body
  end.

(** *** File operations *)

Definition exists_ (p : string) : M bool :=
  fun s => (Ok (bool_decide (is_Some (fs s !! p))), s).

Definition read_file (p : string) : M string :=
  fun s =>
    match fs s !! p with
    | Some (File data) => (Ok data, s)
    | _ => (Raise (IOError p), s)
    end.

Definition write_file (p data : string) : M unit :=
  fun s =>
    match fs s !! p with
    | Some Dir => (Raise (IOError p), s)
    | _ => (Ok tt, {| self := self s; fs := <[p := File data]> (fs s); log := log s |})
    end.

(** [shutil.copyfile(src, dst)]. *)
Definition copyfile (src dst : string) : M unit :=
  e <- exists_ src ;;
  if e && bool_decide (src = dst) then raise ShutilError
  else
    data <- read_file src ;;
    write_file dst data ;;
    emit (CopyFile src dst).

Section WithPlatform.
Context {platform : Platform}.

(** [biplist.readPlist(path)]. *)
Definition readPlist (p : string) : M value :=
  data <- read_file p ;;
  match readPlistFromString data with
  | Some v => ret v
  | None => raise InvalidPlistException
  end.

(** [biplist.writePlist(root, path, binary)]. *)
Definition writePlist (root : value) (p : string) (binary : bool) : M unit :=
  write_file p (writePlistToString root binary) ;;
  emit (WritePlist root p binary).

Definition os_listdir (p : string) : M (list string) :=
  fun s =>
    match listdir (fs s) p with
    | Some names => (Ok names, s)
    | None => (Raise (OSError p), s)
    end.

Definition glob_glob (pattern : string) : M (list string) :=
  fun s => (Ok (glob (fs s) pattern), s).

End WithPlatform.

(** *** Attribute assignment *)

Definition set_info (i : gmap string value) (b : bundle) : bundle :=
  {| cls := cls b; path := path b; info_path := info_path b; info := i;
     orig_info := orig_info b; seal_path := seal_path b;
     new_appid := new_appid b; entitlements_path := entitlements_path b;
     provision_path := provision_path b; new_provision := new_provision b;
     new_provision_path := new_provision_path b |}.

Definition set_orig_info (o : option (gmap string value)) (b : bundle) : bundle :=
  {| cls := cls b; path := path b; info_path := info_path b; info := info b;
     orig_info := o; seal_path := seal_path b;
     new_appid := new_appid b; entitlements_path := entitlements_path b;
     provision_path := provision_path b; new_provision := new_provision b;
     new_provision_path := new_provision_path b |}.

Definition set_seal_path (p : option string) (b : bundle) : bundle :=
  {| cls := cls b; path := path b; info_path := info_path b; info := info b;
     orig_info := orig_info b; seal_path := p;
     new_appid := new_appid b; entitlements_path := entitlements_path b;
     provision_path := provision_path b; new_provision := new_provision b;
     new_provision_path := new_provision_path b |}.

Definition set_new_appid (a : option (option value)) (b : bundle) : bundle :=
  {| cls := cls b; path := path b; info_path := info_path b; info := info b;
     orig_info := orig_info b; seal_path := seal_path b;
     new_appid := a; entitlements_path := entitlements_path b;
     provision_path := provision_path b; new_provision := new_provision b;
     new_provision_path := new_provision_path b |}.

Definition set_entitlements_path (p : option string) (b : bundle) : bundle :=
  {| cls := cls b; path := path b; info_path := info_path b; info := info b;
     orig_info := orig_info b; seal_path := seal_path b;
     new_appid := new_appid b; entitlements_path := p;
     provision_path := provision_path b; new_provision := new_provision b;
     new_provision_path := new_provision_path b |}.

Definition set_new_provision (v : value) (src : string) (b : bundle) : bundle :=
  {| cls := cls b; path := path b; info_path := info_path b; info := info b;
     orig_info := orig_info b; seal_path := seal_path b;
     new_appid := new_appid b; entitlements_path := entitlements_path b;
     provision_path := provision_path b; new_provision := Some v;
     new_provision_path := Some src |}.

Definition modify_self (f : bundle -> bundle) : M unit :=
  fun s => (Ok tt, {| self := f (self s); fs := fs s; log := log s |}).

(** ** [is_info_plist_native] *)

Definition is_info_plist_native (plist : value) : result bool :=
  match Dyn.contains "CFBundleSupportedPlatforms" plist with
  | Ok true =>
      match Dyn.getitem plist "CFBundleSupportedPlatforms" with
      | Ok platforms => Dyn.contains "iPhoneOS" platforms
      | Raise e => Raise e
      end
  | r => r
  end.

(** ** class Bundle: the metadata store *)

(** One turn of the loop over [CFBundleURLTypes]: the entry as it is left,
    and whether it was rewritten. *)
Definition url_type_step (old_bundle_id new_bundle_id url_type : value)
  : result (value * bool) :=
  match Dyn.contains "CFBundleURLName" url_type with
  | Raise e => Raise e
  | Ok false => Ok (url_type, false)
  | Ok true =>
      match Dyn.getitem url_type "CFBundleURLName", url_type with
      | Ok name, VDict d =>
          if Py.eqb name old_bundle_id
          then Ok (VDict (<["CFBundleURLName" := new_bundle_id]> d), true)
          else Ok (url_type, false)
      | Ok _, _ => Raise TypeError
      | Raise e, _ => Raise e
      end
  end.

(** The whole loop: the entries as the loop leaves them, the [changed]
    flag, and the exception that interrupted it, if any. *)
Fixpoint rewrite_url_names (old_bundle_id new_bundle_id : value)
    (url_types : list value) : list value * bool * option exn :=
  match url_types with
  | [] => ([], false, None)
  | url_type :: rest =>
      match url_type_step old_bundle_id new_bundle_id url_type with
      | Raise e => (url_type :: rest, false, Some e)
      | Ok (url_type', c) =>
          let '(rest', c', e) := rewrite_url_names old_bundle_id new_bundle_id rest in
          (url_type' :: rest', c || c', e)
      end
  end.

(** The loop over [new_props.iteritems()]. *)
Definition apply_props (new_props : gmap string value)
    (acc : gmap string value * bool) : gmap string value * bool :=
  map_fold
    (fun key val (acc : gmap string value * bool) =>
       let is_new_key := bool_decide (acc.1 !! key = None) in
       if is_new_key ||
          match acc.1 !! key with
          | Some cur => negb (Py.eqb cur val)
          | None => false
          end
       then (<[key := val]> acc.1, true)
       else acc)
    acc new_props.

Definition info_props_changed (b : bundle) : bool :=
  bool_decide (orig_info b ≠ None).

Definition info_prop_changed (b : bundle) (key : string) : bool :=
  match orig_info b with
  | None => false
  | Some orig =>
      if bool_decide (orig = ∅) then false
      else
        match info b !! key, orig !! key with
        | Some cur, Some old => negb (Py.eqb cur old)
        | _, _ => true
        end
  end.

Definition get_info_prop (b : bundle) (key : string) : result value :=
  match info b !! key with
  | Some v => Ok v
  | None => Raise (KeyError key)
  end.

Section Classes.
Context {platform : Platform}.

(** [Bundle.__init__], for the class [c] being instantiated.  A decoded
    plist that passes [is_info_plist_native] is a dictionary. *)
Definition Bundle_init (c : bundle_class) (p : string) : M bundle :=
  let info_path := PosixPath.join p "Info.plist" in
  e <- exists_ info_path ;;
  if negb e then raise NotMatched
  else
    plist <- readPlist info_path ;;
    native <- lift (is_info_plist_native plist) ;;
    if negb native then raise NotMatched
    else
      match plist with
      | VDict d =>
          ret {| cls := c; path := p; info_path := info_path; info := d;
                 orig_info := None; seal_path := None;
                 new_appid := None; entitlements_path := None;
                 provision_path := None; new_provision := None;
                 new_provision_path := None |}
      | _ => raise TypeError
      end.

Definition get_executable_path : M string :=
  b <- get_self ;;
  executable_name <-
    match info b !! "CFBundleExecutable" with
    | Some v => ret v
    | None => ret (VStr (PosixPath.splitext (PosixPath.basename (path b))).1)
    end ;;
  match executable_name with
  | VStr name =>
      let executable := PosixPath.join (path b) name in
      e <- exists_ executable ;;
      if negb e then raise (CouldNotFindExecutable (path b))
      else ret executable
  | _ => raise (AttributeError "startswith")
  end.

(** The special rule of [update_info_props] for URL schemes; returns the
    [changed] flag. *)
Definition update_url_types (new_props : gmap string value) : M bool :=
  b <- get_self ;;
  match new_props !! "CFBundleIdentifier", info b !! "CFBundleURLTypes",
        new_props !! "CFBundleURLTypes" with
  | Some new_bundle_id, Some url_types, None =>
      old_bundle_id <- lift (get_info_prop b "CFBundleIdentifier") ;;
      entries <- lift (Dyn.iter url_types) ;;
      let '(entries', changed, e) :=
        rewrite_url_names old_bundle_id new_bundle_id entries in
      match url_types with
      | VList _ =>
          modify_self (set_info (<["CFBundleURLTypes" := VList entries']> (info b)))
      | _ => ret tt
      end ;;
      match e with
      | Some e => raise e
      | None => ret changed
      end
  | _, _, _ => ret false
  end.

Definition update_info_props (new_props : gmap string value) : M unit :=
  b <- get_self ;;
  match orig_info b with
  | None => modify_self (set_orig_info (Some (info b)))
  | Some _ => ret tt
  end ;;
  changed <- update_url_types new_props ;;
  b <- get_self ;;
  let '(info', changed) := apply_props new_props (info b, changed) in
  modify_self (set_info info') ;;
  if changed then writePlist (VDict info') (info_path b) true
  else modify_self (set_orig_info None).

(** [sign_dylibs]: every [*.dylib] directly inside [dir]. *)
Definition sign_binary (target : signable) (file : string) : M unit :=
  b <- get_self ;;
  store <- get_fs ;;
  if signable_sign target b file store then emit (Sign target b file)
  else raise SignFailure.

Definition sign_dylibs (dir : string) : M unit :=
  dylib_paths <- glob_glob (PosixPath.join dir "*.dylib") ;;
  for_each dylib_paths (sign_binary Dylib).

Definition signable_class (c : bundle_class) : signable :=
  match c with
  | ClsFramework => Framework
  | ClsApp | ClsAppEx => Executable
  end.

Definition build_seal : M unit :=
  b <- get_self ;;
  executable <- get_executable_path ;;
  store <- get_fs ;;
  match make_seal store executable (path b) with
  | Some seal =>
      emit (MakeSeal executable (path b)) ;;
      modify_self (set_seal_path (Some seal))
  | None => raise SealFailure
  end.

End Classes.

(** ** class App: identifier rewrite and credentials *)

(** How the [for ... else] loop of [change_bundle_id] is left. *)
Inductive loop_exit : Type :=
  | Returned      (* [return] inside the loop *)
  | Broke         (* [break] *)
  | Completed.    (* the range is exhausted: the [else] branch runs *)

Fixpoint compare_loop (oldids newids : list string) (range : list nat) : loop_exit :=
  match range with
  | [] => Completed
  | i :: range' =>
      if bool_decide (newids !! i = Some "*") then Returned
      else if bool_decide (newids !! i ≠ oldids !! i) then Broke
      else compare_loop oldids newids range'
  end.

(** The second loop: [if newids[i] == "*": newids[i] = "isign"]. *)
Definition replace_wildcards (newids : list string) : list string :=
  foldl (fun (l : list string) (i : nat) =>
           if bool_decide (l !! i = Some "*") then <[i := "isign"]> l else l)
        newids (seq 0 (length newids)).

(** [v.split(".")]: only a string has the method. *)
Definition str_split (v : value) : result (list string) :=
  match v with
  | VStr s => Ok (Py.split "." s)
  | _ => Raise (AttributeError "split")
  end.

Section App.
Context {platform : Platform}.

(** [App.__init__], for [App] itself and for [AppEx]. *)
Definition App_init (c : bundle_class) (p : string) (appid : option value)
  : M bundle :=
  b <- Bundle_init c p ;;
  ret {| cls := cls b; path := path b; info_path := info_path b;
         info := info b; orig_info := orig_info b; seal_path := seal_path b;
         new_appid := Some appid;
         entitlements_path := Some (PosixPath.join p "Entitlements.plist");
         provision_path := Some (PosixPath.join p "embedded.mobileprovision");
         new_provision := None; new_provision_path := None |}.

Definition change_bundle_id : M unit :=
  b <- get_self ;;
  oldid <- lift (get_info_prop b "CFBundleIdentifier") ;;
  appid <- getattr "new_appid" new_appid ;;
  newid <-
    match appid with
    | None =>
        provision <- getattr "new_provision" new_provision ;;
        entitlements <- lift (Dyn.getitem provision "Entitlements") ;;
        newid <- lift (Dyn.getitem entitlements "application-identifier") ;;
        modify_self (set_new_appid (Some (Some newid))) ;;
        ret newid
    | Some newid => ret newid
    end ;;
  oldids <- lift (str_split oldid) ;;
  newids_all <- lift (str_split newid) ;;
  let newids := tail newids_all in
  let num := Nat.min (length oldids) (length newids) in
  let rewrite_id :=
    b <- get_self ;;
    let info' := <["CFBundleIdentifier" :=
                     VStr (Py.join "." (replace_wildcards newids))]> (info b) in
    modify_self (set_info info') ;;
    writePlist (VDict info') (info_path b) true in
  match compare_loop oldids newids (seq 0 num) with
  | Returned => ret tt
  | Broke => rewrite_id
  | Completed =>
      if bool_decide (length oldids = length newids) then ret tt
      else rewrite_id
  end.

Definition App_copy_provision (src : string) : M unit :=
  dst <- getattr "provision_path" provision_path ;;
  copyfile src dst.

Definition App_create_entitlements : M unit :=
  provision <- getattr "new_provision" new_provision ;;
  entitlements <- lift (Dyn.getitem provision "Entitlements") ;;
  dst <- getattr "entitlements_path" entitlements_path ;;
  writePlist entitlements dst false.

Definition App_load_provision_data (src : string) : M unit :=
  profile_data <- read_file src ;;
  let beginstr := "<?xml version=" in
  let endstr := "</plist>" in
  let begin_pos := Py.find beginstr profile_data in
  let end_pos := Py.find endstr profile_data in
  if negb (bool_decide (begin_pos ≠ -1) && bool_decide (end_pos ≠ -1))
  then raise AssertionError
  else
    let profile_data := Py.slice begin_pos (end_pos + 8) profile_data in
    match readPlistFromString profile_data with
    | Some provision => modify_self (set_new_provision provision src)
    | None => raise InvalidPlistException
    end.

(** *** class AppEx *)

Definition AppEx_copy_provision (src : string) : M unit :=
  dst <- getattr "provision_path" provision_path ;;
  e <- exists_ dst ;;
  if e then copyfile src dst else ret tt.

Definition AppEx_load_provision_data (src : string) : M unit :=
  e <- exists_ src ;;
  if e then App_load_provision_data src else ret tt.

Definition AppEx_create_entitlements : M unit :=
  dst <- getattr "provision_path" provision_path ;;
  e <- exists_ dst ;;
  if negb e then
    _ <- getattr "entitlements_path" entitlements_path ;;
    modify_self (set_entitlements_path None)
  else App_create_entitlements.

(** *** Method dispatch on the class of [self] *)

Definition load_provision_data (src : string) : M unit :=
  b <- get_self ;;
  match cls b with
  | ClsAppEx => AppEx_load_provision_data src
  | _ => App_load_provision_data src
  end.

Definition copy_provision (src : string) : M unit :=
  b <- get_self ;;
  match cls b with
  | ClsAppEx => AppEx_copy_provision src
  | _ => App_copy_provision src
  end.

Definition create_entitlements : M unit :=
  b <- get_self ;;
  match cls b with
  | ClsAppEx => AppEx_create_entitlements
  | _ => App_create_entitlements
  end.

(** [App.resign], over the [sign] of the base class. *)
Definition App_resign_with (sign : M unit) (src : string) : M unit :=
  load_provision_data src ;;
  change_bundle_id ;;
  copy_provision src ;;
  create_entitlements ;;
  sign.

(** ** [Bundle.sign]

    The body of the method is split at its comments: the frameworks, the
    plug-ins, then the seal and the signature.  [sign_child] stands for
    the recursive call on a nested bundle. *)

(** "sign all the frameworks" and "sign all the dylibs under Frameworks". *)
Definition sign_frameworks (sign_child : M unit) (frameworks_path : string)
  : M unit :=
  names <- os_listdir frameworks_path ;;
  for_each names (fun framework_name =>
    let framework_path := PosixPath.join frameworks_path framework_name in
    except_NotMatched
      (framework <- Bundle_init ClsFramework framework_path ;;
       on framework sign_child)) ;;
  sign_dylibs frameworks_path.

(** "sign the appex executables". *)
Definition sign_plugins (sign_child : M unit) (plugins_path : string)
  : M unit :=
  appex_paths <- glob_glob (PosixPath.join plugins_path "*.appex") ;;
  for_each appex_paths (fun appex_path =>
    let plist_path := PosixPath.join appex_path "Info.plist" in
    e <- exists_ plist_path ;;
    if negb e then ret tt
    else
      appid <- getattr "new_appid" new_appid ;;
      appex <- App_init ClsAppEx appex_path appid ;;
      src <- getattr "new_provision_path" new_provision_path ;;
      on appex (App_resign_with sign_child src)).

Definition sign_with (sign_child : M unit) : M unit :=
  b <- get_self ;;
  let frameworks_path := PosixPath.join (path b) "Frameworks" in
  e <- exists_ frameworks_path ;;
  (if e then sign_frameworks sign_child frameworks_path else ret tt) ;;
  sign_dylibs (path b) ;;
  let plugins_path := PosixPath.join (path b) "PlugIns" in
  e <- exists_ plugins_path ;;
  (if e then sign_plugins sign_child plugins_path else ret tt) ;;
  build_seal ;;
  executable <- get_executable_path ;;
  sign_binary (signable_class (cls b)) executable.

(** The recursion follows the nesting of bundles on disk; [depth] bounds
    it the way the interpreter's recursion limit does. *)
Fixpoint sign (depth : nat) : M unit :=
  match depth with
  | O => raise RecursionLimit
  | S depth' => sign_with (sign depth')
  end.

(** [Bundle.resign], inherited by [Framework]. *)
Definition Bundle_resign (depth : nat) : M unit := sign depth.

(** [App.resign], inherited by [AppEx]. *)
Definition App_resign (depth : nat) (src : string) : M unit :=
  App_resign_with (Bundle_resign depth) src.

End App.

(** ** A reference platform

    A small instance of the collaborators on which the methods can be run:
    directories are enumerated from the keys of the file store, the codec
    knows a handful of documents, and sealing and signing always succeed. *)

Module Demo.

Definition entry_name (dir k : string) : option string :=
  let prefix := dir +:+ "/" in
  if Py.startswith prefix k then
    let name := Py.drop (String.length prefix) k in
    if negb (bool_decide (name = "")) && (Py.find "/" name <? 0)
    then Some name else None
  else None.

Definition demo_listdir (store : gmap string node) (dir : string)
  : option (list string) :=
  match store !! dir with
  | Some Dir => Some (omap (entry_name dir) (map_to_list store).*1)
  | _ => None
  end.

Definition endswith (suffix s : string) : bool :=
  bool_decide (Py.slice_from (Py.len s - Py.len suffix) s = suffix)
  && (Py.len suffix <=? Py.len s).

(** Patterns of the shape [dir/*suffix]. *)
Definition demo_glob (store : gmap string node) (pattern : string)
  : list string :=
  let star := Py.find "*" pattern in
  let prefix := Py.slice_to star pattern in
  let suffix := Py.slice_from (star + 1) pattern in
  List.filter
    (fun k =>
       Py.startswith prefix k &&
       let name := Py.drop (String.length prefix) k in
       endswith suffix name && (Py.find "/" name <? 0)
       && negb (Py.startswith "." name))
    (map_to_list store).*1.

Definition native_info (id : string) : gmap string value :=
  {[ "CFBundleSupportedPlatforms" := VList [VStr "iPhoneOS"];
     "CFBundleIdentifier" := VStr id ]}.

Definition profile (appid : string) : value :=
  VDict {[ "Entitlements" :=
             VDict {[ "application-identifier" := VStr appid ]} ]}.

Definition demo_decode (data : string) : option value :=
  if bool_decide (data = "app-info") then Some (VDict (native_info "com.acme.App"))
  else if bool_decide (data = "lib-info") then Some (VDict (native_info "com.acme.Lib"))
  else if bool_decide (data = "ext-info") then Some (VDict (native_info "com.acme.App.Ext"))
  else if bool_decide (data = "mac-info") then
    Some (VDict {[ "CFBundleSupportedPlatforms" := VList [VStr "MacOSX"] ]})
  else if bool_decide (data = "<?xml version=1><plist>acme</plist>") then
    Some (profile "TEAM.com.acme.*")
  else if bool_decide (data = "<?xml version=1><plist>other</plist>") then
    Some (profile "TEAM.com.other.App")
  else None.

Definition demo_encode (root : value) (binary : bool) : string :=
  if binary then "bplist00" else "<?xml version=1><plist></plist>".

#[export] Instance demo : Platform := {|
  listdir := demo_listdir;
  glob := demo_glob;
  readPlistFromString := demo_decode;
  writePlistToString := demo_encode;
  make_seal := fun _ _ bundle_path =>
    Some (PosixPath.join bundle_path "_CodeSignature/CodeResources");
  signable_sign := fun _ _ _ _ => true |}.

(** An application with one framework, two loose libraries and one
    extension. *)
Definition disk : gmap string node :=
  list_to_map
    [ ("/p.mobileprovision", File "pkcs7<?xml version=1><plist>acme</plist>trailer");
      ("/A.app", Dir);
      ("/A.app/Info.plist", File "app-info");
      ("/A.app/A", File "macho");
      ("/A.app/root.dylib", File "macho");
      ("/A.app/Frameworks", Dir);
      ("/A.app/Frameworks/L.framework", Dir);
      ("/A.app/Frameworks/L.framework/Info.plist", File "lib-info");
      ("/A.app/Frameworks/L.framework/L", File "macho");
      ("/A.app/Frameworks/notes.txt", File "text");
      ("/A.app/Frameworks/swift.dylib", File "macho");
      ("/A.app/PlugIns", Dir);
      ("/A.app/PlugIns/E.appex", Dir);
      ("/A.app/PlugIns/E.appex/Info.plist", File "ext-info");
      ("/A.app/PlugIns/E.appex/E", File "macho") ].

(** The object a caller holds before any bundle has been built. *)
Definition nobody : bundle :=
  {| cls := ClsApp; path := ""; info_path := ""; info := ∅;
     orig_info := None; seal_path := None; new_appid := None;
     entitlements_path := None; provision_path := None;
     new_provision := None; new_provision_path := None |}.

Definition boot (store : gmap string node) : state :=
  {| self := nobody; fs := store; log := [] |}.

(** Build an object and run a method on it, keeping the final state of
    that object. *)
Definition run {A} (init : M bundle) (method : M A) (store : gmap string node)
  : result A * state :=
  match init (boot store) with
  | (Ok b, s) => method {| self := b; fs := fs s; log := log s |}
  | (Raise e, s) => (Raise e, s)
  end.

(** The application object as [App("/A.app")] builds it. *)
Definition app_object : bundle :=
  {| cls := ClsApp; path := "/A.app"; info_path := "/A.app/Info.plist";
     info := native_info "com.acme.App"; orig_info := None;
     seal_path := None; new_appid := Some None;
     entitlements_path := Some "/A.app/Entitlements.plist";
     provision_path := Some "/A.app/embedded.mobileprovision";
     new_provision := None; new_provision_path := None |}.

Definition on_disk (b : bundle) : state :=
  {| self := b; fs := disk; log := [] |}.

(** A store holding ["v0"] under ["K"]. *)
Definition store_K : state :=
  on_disk (set_info (<["K" := VStr "v0"]> (info app_object)) app_object).

(** A store whose only URL scheme is named after the bundle identifier. *)
Definition store_url : state :=
  on_disk (set_info
             (<["CFBundleURLTypes" :=
                  VList [VDict {[ "CFBundleURLName" := VStr "com.acme.App";
                                  "CFBundleURLSchemes" := VList [VStr "acme"] ]}]]>
                (info app_object))
             app_object).

End Demo.

(** * Properties *)

(** ** Python equality decides equality of values *)

Lemma size_lookup (d : gmap string value) k v :
  d !! k = Some v → (Py.size v < Py.size (VDict d))%nat.
Proof.
  intros Hk. simpl. rewrite <- (insert_delete_id d k v Hk).
  rewrite map_fold_insert_L; [lia | intros; lia | apply lookup_delete_eq].
Qed.

Lemma size_elem (l : list value) v :
  v ∈ l → (Py.size v < Py.size (VList l))%nat.
Proof. simpl. induction 1; simpl; lia. Qed.

(** Induction on values, with the hypothesis available for every element
    of a list and every entry of a dictionary. *)
Lemma value_nested_ind (P : value → Prop) :
  (∀ s, P (VStr s)) → (∀ z, P (VInt z)) →
  (∀ l, Forall P l → P (VList l)) →
  (∀ d, map_Forall (λ _, P) d → P (VDict d)) →
  ∀ v, P v.
Proof.
  intros Hs Hz Hl Hd v.
  remember (Py.size v) as n eqn:Hn. revert v Hn.
  induction n as [n IH] using lt_wf_ind. intros v ->.
  destruct v as [s|z|l|d]; auto.
  - apply Hl, Forall_forall. intros x Hx.
    eapply IH; [|reflexivity]. by apply size_elem.
  - apply Hd. intros k x Hk.
    eapply IH; [|reflexivity]. by eapply size_lookup.
Qed.

Lemma eqb_dict_fold (d' d : gmap string value) :
  map_Forall (λ _ x, ∀ y, Py.eqb x y = true ↔ x = y) d →
  map_fold (λ k v acc, acc && match d' !! k with
                              | Some w => Py.eqb v w
                              | None => false
                              end) true d = true
  ↔ ∀ k v, d !! k = Some v → d' !! k = Some v.
Proof.
  induction d as [|k v d Hk Hfst IHd] using map_first_key_ind.
  - intros _. rewrite map_fold_empty. split; [|done].
    intros _ k v. by rewrite lookup_empty.
  - intros HF. rewrite map_fold_insert_first_key by done.
    rewrite andb_true_iff.
    apply map_Forall_insert in HF as [Hv HF]; [|done].
    rewrite (IHd HF). split.
    + intros [H1 H2] k0 v0. rewrite lookup_insert. case_decide.
      * subst. intros [= <-]. destruct (d' !! k0) as [w|]; [|done].
        apply Hv in H2. by subst.
      * apply H1.
    + intros Hall. split.
      * intros k0 v0 Hk0. apply Hall.
        rewrite lookup_insert_ne; [done|]. intros ->. congruence.
      * rewrite (Hall k v) by apply lookup_insert_eq. by apply Hv.
Qed.

Lemma eqb_eq (x y : value) : Py.eqb x y = true ↔ x = y.
Proof.
  revert y.
  induction x as [s|z|l IH|d IH] using value_nested_ind;
    intros [s'|z'|l'|d']; simpl; try (split; [discriminate | congruence]).
  - rewrite bool_decide_eq_true. split; congruence.
  - rewrite bool_decide_eq_true. split; congruence.
  - revert l'. induction IH as [|a l Ha _ IHl]; intros [|b l'];
      try (split; [discriminate || done | congruence || done]).
    rewrite andb_true_iff, Ha. specialize (IHl l'). split.
    + intros [-> Hgo]. apply IHl in Hgo. congruence.
    + intros [= -> ->]. split; [done|]. by apply IHl.
  - rewrite andb_true_iff, bool_decide_eq_true, (eqb_dict_fold d' d IH). split.
    + intros [Hdom Hsub]. f_equal. apply map_eq. intros k.
      destruct (d !! k) as [v|] eqn:E.
      * symmetry. by apply Hsub.
      * symmetry. apply not_elem_of_dom. rewrite <- Hdom.
        by apply not_elem_of_dom.
    + by intros [= ->].
Qed.

Lemma eqb_refl (x : value) : Py.eqb x x = true.
Proof. by apply eqb_eq. Qed.

Lemma eqb_neq (x y : value) : Py.eqb x y = false ↔ x ≠ y.
Proof.
  destruct (Py.eqb x y) eqn:E.
  - apply eqb_eq in E. split; [discriminate | congruence].
  - split; [|done]. intros _ Heq. apply eqb_eq in Heq. congruence.
Qed.

#[export] Instance value_eq_dec : EqDecision value.
Proof.
  intros x y. destruct (Py.eqb x y) eqn:E.
  - left. by apply eqb_eq.
  - right. by apply eqb_neq.
Defined.

(** ** Unfolding the monad *)

#[local] Arguments PosixPath.join : simpl never.
#[local] Arguments PosixPath.basename : simpl never.
#[local] Arguments PosixPath.splitext : simpl never.
#[local] Arguments Py.find : simpl never.
#[local] Arguments Py.slice : simpl never.
#[local] Arguments Py.split : simpl never.
#[local] Arguments Py.join : simpl never.

Ltac run :=
  unfold bind, ret, raise, lift, get_self, get_fs, set_self, modify_self,
    emit, getattr, exists_, read_file in *; simpl in *.

(** ** The main executable (C9) *)

(** C9: [get_executable_path] resolves the main executable as the name
    declared under [CFBundleExecutable] when that key is present, and
    otherwise as the base name of the bundle directory with its extension
    stripped; the name is joined to the bundle path, and the call raises
    the could-not-find-executable exception exactly when nothing exists at
    the resolved path.  The state is left as it was. *)
Theorem get_executable_path_resolution (s : state) :
  let b := self s in
  let resolve (name : string) : result string * state :=
    let executable := PosixPath.join (path b) name in
    (if bool_decide (is_Some (fs s !! executable)) then Ok executable
     else Raise (CouldNotFindExecutable (path b)), s) in
  (∀ name, info b !! "CFBundleExecutable" = Some (VStr name) →
           get_executable_path s = resolve name) ∧
  (info b !! "CFBundleExecutable" = None →
   get_executable_path s
   = resolve (PosixPath.splitext (PosixPath.basename (path b))).1).
Proof.
  intros b resolve. subst resolve. unfold get_executable_path. split.
  - intros name Hname. run. fold b. rewrite Hname. run.
    by destruct (bool_decide _).
  - intros Hnone. run. fold b. rewrite Hnone. run.
    by destruct (bool_decide _).
Qed.

Lemma get_executable_path_resolution_witness :
  get_executable_path
    (Demo.on_disk (set_info (<["CFBundleExecutable" := VStr "A"]>
                               (info Demo.app_object)) Demo.app_object))
  = (Ok "/A.app/A",
     Demo.on_disk (set_info (<["CFBundleExecutable" := VStr "A"]>
                               (info Demo.app_object)) Demo.app_object))
  ∧ get_executable_path (Demo.on_disk Demo.app_object)
    = (Ok "/A.app/A", Demo.on_disk Demo.app_object).
Proof.
  split.
  - rewrite (proj1 (get_executable_path_resolution _) "A");
      [| vm_compute; reflexivity].
    vm_compute. reflexivity.
  - rewrite (proj2 (get_executable_path_resolution _));
      [| vm_compute; reflexivity].
    vm_compute. reflexivity.
Defined.

(** ** Classification (C3) *)

(** A decoded property list lacks the markers of a native bundle when it
    has no [CFBundleSupportedPlatforms], or when the value under that key
    does not contain [iPhoneOS]. *)
Definition lacks_native_markers (plist : value) : Prop :=
  Dyn.contains "CFBundleSupportedPlatforms" plist = Ok false ∨
  ∃ platforms,
    Dyn.getitem plist "CFBundleSupportedPlatforms" = Ok platforms ∧
    Dyn.contains "iPhoneOS" platforms = Ok false.

Lemma is_info_plist_native_false (plist : value) :
  is_info_plist_native plist = Ok false ↔ lacks_native_markers plist.
Proof.
  unfold is_info_plist_native, lacks_native_markers.
  destruct (Dyn.contains "CFBundleSupportedPlatforms" plist) as [[]|e] eqn:Hc.
  - destruct (Dyn.getitem plist "CFBundleSupportedPlatforms") as [v|e] eqn:Hg.
    + split.
      * intros Hv. right. by exists v.
      * intros [?|(v' & [= <-] & ?)]; [discriminate | done].
    + split; [discriminate|]. intros [?|(v' & ? & ?)]; discriminate.
  - split; [by left | done].
  - split; [discriminate|]. intros [?|(v' & Hg & ?)]; [discriminate|].
    destruct plist; simpl in *; discriminate.
Qed.

(** A property list that passes the test is a dictionary. *)
Lemma is_info_plist_native_dict (plist : value) :
  is_info_plist_native plist = Ok true → ∃ d, plist = VDict d.
Proof.
  unfold is_info_plist_native.
  destruct plist as [s|z|l|d]; simpl; try discriminate.
  - by destruct (0 <=? _).
  - by destruct (existsb _ _).
  - by exists d.
Qed.

(** The test itself never raises [NotMatched]. *)
Lemma is_info_plist_native_raise (plist : value) (e : exn) :
  is_info_plist_native plist = Raise e → e ≠ NotMatched.
Proof.
  unfold is_info_plist_native, Dyn.contains, Dyn.getitem.
  intros Hr ->. repeat case_match; simplify_eq.
Qed.



(** ** Searching and slicing byte strings *)

(** [needle] occurs in [hay] at offset [i]. *)
Definition occurs_at (needle hay : string) (i : nat) : Prop :=
  (i ≤ String.length hay)%nat ∧ Py.startswith needle (Py.drop i hay) = true.

Definition first_occurrence (needle hay : string) (i : nat) : Prop :=
  occurs_at needle hay i ∧ ∀ j, (j < i)%nat → ¬ occurs_at needle hay j.

Definition absent (needle hay : string) : Prop :=
  ∀ i, ¬ occurs_at needle hay i.

(** The bytes of [data] at the offsets [lo ≤ k < hi]. *)
Definition byte_range (lo hi : nat) (data : string) : string :=
  Py.take (hi - lo) (Py.drop lo data).

Lemma startswith_length (p s : string) :
  Py.startswith p s = true → (String.length p ≤ String.length s)%nat.
Proof.
  revert s. induction p as [|a p IH]; intros [|b s]; simpl; try lia; try done.
  rewrite andb_true_iff. intros [_ Hp]. apply IH in Hp. lia.
Qed.

Lemma drop_length (n : nat) (s : string) :
  String.length (Py.drop n s) = (String.length s - n)%nat.
Proof.
  revert s. induction n as [|n IH]; intros [|a s]; simpl; try lia.
  apply IH.
Qed.

Lemma occurs_at_cons (needle : string) (a : ascii) (hay : string) (i : nat) :
  occurs_at needle (String a hay) (S i) ↔ occurs_at needle hay i.
Proof. unfold occurs_at. simpl. split; intros [? ?]; split; [lia|done|lia|done]. Qed.

Lemma occurs_at_zero (needle hay : string) :
  occurs_at needle hay 0 ↔ Py.startswith needle hay = true.
Proof. unfold occurs_at. simpl. split; [by intros [_ ?] | split; [lia|done]]. Qed.

Lemma find_from_spec (needle hay : string) (k : Z) :
  (Py.find_from needle hay k = -1 ∧ absent needle hay) ∨
  (∃ i, Py.find_from needle hay k = k + Z.of_nat i ∧
        first_occurrence needle hay i).
Proof.
  revert k. induction hay as [|a hay IH]; intros k; simpl.
  - destruct (Py.startswith needle "") eqn:Hp.
    + right. exists 0%nat. split; [lia|]. split; [by apply occurs_at_zero|lia].
    + left. split; [done|]. intros [|i] [Hi Hs]; simpl in *; [congruence|lia].
  - destruct (Py.startswith needle (String a hay)) eqn:Hp.
    + right. exists 0%nat. split; [lia|]. split; [by apply occurs_at_zero|lia].
    + destruct (IH (k + 1)) as [[Hf Habs]|(i & Hf & Hocc & Hmin)].
      * left. split; [done|]. intros [|i] Hocc.
        -- apply occurs_at_zero in Hocc. congruence.
        -- apply occurs_at_cons in Hocc. by apply (Habs i).
      * right. exists (S i). split; [lia|]. split.
        -- by apply occurs_at_cons.
        -- intros [|j] Hj Hoccj.
           ++ apply occurs_at_zero in Hoccj. congruence.
           ++ apply occurs_at_cons in Hoccj. apply (Hmin j); [lia|done].
Qed.

Lemma first_occurrence_unique (needle hay : string) (i j : nat) :
  first_occurrence needle hay i → first_occurrence needle hay j → i = j.
Proof.
  intros [Hi Hmi] [Hj Hmj].
  destruct (Nat.lt_trichotomy i j) as [Hlt|[->|Hlt]]; [|done|].
  - by destruct (Hmj i Hlt).
  - by destruct (Hmi j Hlt).
Qed.

(** [find] returns -1 exactly when the needle is absent, and otherwise the
    offset of its first occurrence. *)
Lemma find_absent (needle hay : string) :
  Py.find needle hay = -1 ↔ absent needle hay.
Proof.
  unfold Py.find.
  destruct (find_from_spec needle hay 0) as [[Hf Habs]|(i & Hf & Hocc & Hmin)].
  - by split.
  - split; [lia|]. intros Habs. by destruct (Habs i).
Qed.

Lemma find_first (needle hay : string) (i : nat) :
  Py.find needle hay = Z.of_nat i ↔ first_occurrence needle hay i.
Proof.
  unfold Py.find.
  destruct (find_from_spec needle hay 0) as [[Hf Habs]|(k & Hf & Hfirst)].
  - split; [lia|]. intros [Hocc _]. by destruct (Habs i).
  - split.
    + intros Heq. assert (k = i) as -> by lia. done.
    + intros Hi. rewrite (first_occurrence_unique _ _ _ _ Hi Hfirst). lia.
Qed.

Lemma slice_byte_range (data : string) (i hi : nat) :
  (i ≤ String.length data)%nat → (hi ≤ String.length data)%nat →
  Py.slice (Z.of_nat i) (Z.of_nat hi) data = byte_range i hi data.
Proof.
  intros Hi Hhi. unfold Py.slice, byte_range, Py.clamp, Py.len.
  destruct (Z.ltb_spec (Z.of_nat i) 0); [lia|].
  destruct (Z.ltb_spec (Z.of_nat hi) 0); [lia|].
  rewrite !Z.max_r, !Z.min_r by lia.
  rewrite Nat2Z.id. f_equal. lia.
Qed.

(** ** The credential loader (C4) *)



(** ** The identifier rewrite (C1) *)

(** The outcome of the comparison as the specification words it, for the
    segments [O] of the old identifier and the segments [N] of the
    candidate without its first one.  The comparison runs in order and
    stops at the first mismatch, so a wildcard is reached at [i] only when
    every earlier segment of [N] equals the one of [O]. *)
Definition wildcard_reached (O N : list string) : Prop :=
  ∃ i, (i < Nat.min (length O) (length N))%nat ∧ N !! i = Some "*" ∧
       ∀ j, (j < i)%nat → N !! j = O !! j.

Definition compared_equal (O N : list string) : Prop :=
  length O = length N ∧
  ∀ i, (i < Nat.min (length O) (length N))%nat →
       N !! i ≠ Some "*" ∧ N !! i = O !! i.

Definition left_unchanged (O N : list string) : Prop :=
  wildcard_reached O N ∨ compared_equal O N.

(** Every wildcard segment replaced by the fallback token. *)
Definition materialize (N : list string) : list string :=
  (λ seg, if bool_decide (seg = "*") then "isign" else seg) <$> N.

(** The candidate identifier of an application object: the explicit
    override, or else the [application-identifier] of the credential. *)
Inductive candidate (b : bundle) : string → Prop :=
  | candidate_override cand :
      new_appid b = Some (Some (VStr cand)) → candidate b cand
  | candidate_credential provision entitlements cand :
      new_appid b = Some None →
      new_provision b = Some provision →
      Dyn.getitem provision "Entitlements" = Ok entitlements →
      Dyn.getitem entitlements "application-identifier" = Ok (VStr cand) →
      candidate b cand.

Lemma compare_loop_Returned (O N : list string) (n k : nat) :
  compare_loop O N (seq k n) = Returned ↔
  ∃ i, (k ≤ i < k + n)%nat ∧ N !! i = Some "*" ∧
       ∀ j, (k ≤ j < i)%nat → N !! j = O !! j.
Proof.
  revert k. induction n as [|n IH]; intros k; simpl.
  - split; [done|]. intros (i & ? & _). lia.
  - case_bool_decide as Hstar.
    + split; [|done]. intros _. exists k. split; [lia|]. split; [done|]. lia.
    + case_bool_decide as Hne.
      * split; [done|]. intros (i & Hi & HNi & Hprev).
        destruct (decide (i = k)) as [->|]; [done|].
        destruct Hne. apply Hprev. lia.
      * rewrite IH.
        split; intros (i & Hi & HNi & Hprev); exists i.
        -- split; [lia|]. split; [done|]. intros j Hj.
           destruct (decide (j = k)) as [->|]; [done|]. apply Hprev. lia.
        -- destruct (decide (i = k)) as [->|]; [done|].
           split; [lia|]. split; [done|]. intros j Hj. apply Hprev. lia.
Qed.

Lemma compare_loop_Completed (O N : list string) (n k : nat) :
  compare_loop O N (seq k n) = Completed ↔
  ∀ i, (k ≤ i < k + n)%nat → N !! i ≠ Some "*" ∧ N !! i = O !! i.
Proof.
  revert k. induction n as [|n IH]; intros k; simpl.
  - split; [|done]. intros _ i ?. lia.
  - case_bool_decide as Hstar.
    + split; [done|]. intros Hall. destruct (Hall k) as [? _]; [lia|done].
    + case_bool_decide as Hne.
      * split; [done|]. intros Hall. destruct (Hall k) as [_ ?]; [lia|done].
      * rewrite IH. split; intros Hall i Hi.
        -- destruct (decide (i = k)) as [->|]; [done|]. apply Hall. lia.
        -- apply Hall. lia.
Qed.

Lemma replace_wildcards_lookup (n k : nat) (l : list string) (i : nat) :
  foldl (λ (l : list string) (i : nat),
           if bool_decide (l !! i = Some "*") then <[i := "isign"]> l else l)
        l (seq k n) !! i
  = if bool_decide (k ≤ i < k + n)%nat
    then (λ seg, if bool_decide (seg = "*") then "isign" else seg) <$> l !! i
    else l !! i.
Proof.
  revert k l. induction n as [|n IH]; intros k l; simpl.
  - rewrite bool_decide_eq_false_2 by lia. done.
  - rewrite IH. destruct (decide (i = k)) as [->|Hne].
    + rewrite (bool_decide_eq_false_2 (S k ≤ k < _)%nat) by lia.
      rewrite (bool_decide_eq_true_2 (k ≤ k < _)%nat) by lia.
      case_bool_decide as Hstar.
      * rewrite Hstar. simpl. rewrite list_lookup_insert_eq; [done|].
        by eapply lookup_lt_Some.
      * destruct (l !! k) as [seg|] eqn:Hk; [|done]. simpl.
        rewrite bool_decide_eq_false_2; [done|]. congruence.
    + assert ((if bool_decide (l !! k = Some "*") then <[k := "isign"]> l else l)
                !! i = l !! i) as ->.
      { case_bool_decide; [|done]. by rewrite list_lookup_insert_ne. }
      destruct (decide (S k ≤ i < S k + n)%nat).
      * rewrite !bool_decide_eq_true_2 by lia. done.
      * rewrite !bool_decide_eq_false_2 by lia. done.
Qed.

Lemma replace_wildcards_materialize (N : list string) :
  replace_wildcards N = materialize N.
Proof.
  apply list_eq. intros i. unfold replace_wildcards, materialize.
  rewrite replace_wildcards_lookup, list_lookup_fmap. simpl.
  case_bool_decide as Hi; [done|].
  rewrite (lookup_ge_None_2 N i) by lia. done.
Qed.

Lemma set_new_appid_same (b : bundle) :
  set_new_appid (new_appid b) b = b.
Proof. by destruct b. Qed.

Lemma left_unchanged_loop (O N : list string) :
  left_unchanged O N ↔
  match compare_loop O N (seq 0 (Nat.min (length O) (length N))) with
  | Returned => True
  | Broke => False
  | Completed => length O = length N
  end.
Proof.
  unfold left_unchanged, wildcard_reached, compared_equal.
  pose proof (compare_loop_Returned O N (Nat.min (length O) (length N)) 0) as HR.
  pose proof (compare_loop_Completed O N (Nat.min (length O) (length N)) 0) as HC.
  destruct (compare_loop O N _).
  - split; [done|]. intros _. left.
    destruct (proj1 HR eq_refl) as (i & Hi & HNi & Hprev).
    exists i. split; [lia|]. split; [done|]. intros j Hj. apply Hprev. lia.
  - split; [|done]. intros [(i & Hi & HNi & Hprev)|[_ Hall]].
    + assert (Broke = Returned); [|done]. apply HR.
      exists i. split; [lia|]. split; [done|]. intros j Hj. apply Hprev. lia.
    + assert (Broke = Completed); [|done]. apply HC.
      intros i Hi. apply Hall. lia.
  - split.
    + intros [(i & Hi & HNi & Hprev)|[Hlen _]]; [|done].
      destruct (proj1 HC eq_refl i) as [? _]; [lia|done].
    + intros Hlen. right. split; [done|]. intros i Hi.
      apply (proj1 HC eq_refl). lia.
Qed.

(** C1: [App.change_bundle_id] follows the rewrite algorithm.  With [O]
    the segments of the old identifier and [N] the segments of the
    candidate after the first, the identifier, the file store and the log
    are left as they are when the in-order comparison reaches a wildcard
    in [N], or completes without wildcard or mismatch on lists of equal
    length.  Otherwise every wildcard of [N] becomes ["isign"], the
    segments are joined with dots, and the result is stored under
    [CFBundleIdentifier] and written back to the property file.  In
    both cases the object remembers the candidate as its [new_appid]. *)
Theorem change_bundle_id_spec {platform : Platform}
    (s : state) (old cand : string) :
  info (self s) !! "CFBundleIdentifier" = Some (VStr old) →
  candidate (self s) cand →
  fs s !! info_path (self s) ≠ Some Dir →
  let O := Py.split "." old in
  let N := tail (Py.split "." cand) in
  let b := set_new_appid (Some (Some (VStr cand))) (self s) in
  let info' := <["CFBundleIdentifier" := VStr (Py.join "." (materialize N))]>
                 (info (self s)) in
  (left_unchanged O N →
   change_bundle_id s = (Ok tt, {| self := b; fs := fs s; log := log s |})) ∧
  (¬ left_unchanged O N →
   change_bundle_id s
   = (Ok tt,
      {| self := set_info info' b;
         fs := <[info_path (self s) :=
                   File (writePlistToString (VDict info') true)]> (fs s);
         log := log s ++ [WritePlist (VDict info') (info_path (self s)) true] |})).
Proof.
  intros Hold Hcand Hfile O N b info'.
  assert (change_bundle_id s =
          match compare_loop O N (seq 0 (Nat.min (length O) (length N))) with
          | Returned => (Ok tt, {| self := b; fs := fs s; log := log s |})
          | Broke =>
              (Ok tt,
               {| self := set_info info' b;
                  fs := <[info_path (self s) :=
                            File (writePlistToString (VDict info') true)]> (fs s);
                  log := log s ++
                         [WritePlist (VDict info') (info_path (self s)) true] |})
          | Completed =>
              if bool_decide (length O = length N)
              then (Ok tt, {| self := b; fs := fs s; log := log s |})
              else
                (Ok tt,
                 {| self := set_info info' b;
                    fs := <[info_path (self s) :=
                              File (writePlistToString (VDict info') true)]> (fs s);
                    log := log s ++
                           [WritePlist (VDict info') (info_path (self s)) true] |})
          end) as Hrun.
  { assert (∀ s1 : state,
              self s1 = b → fs s1 = fs s → log s1 = log s →
              (writePlist (VDict info') (info_path (self s)) true)
                {| self := set_info info' (self s1); fs := fs s1; log := log s1 |}
              = (Ok tt,
                 {| self := set_info info' b;
                    fs := <[info_path (self s) :=
                              File (writePlistToString (VDict info') true)]> (fs s);
                    log := log s ++
                           [WritePlist (VDict info') (info_path (self s)) true] |}))
      as Hwrite.
    { intros s1 -> Hfs1 ->. unfold writePlist, write_file. run. rewrite Hfs1.
      destruct (fs s !! info_path (self s)) as [[?|]|] eqn:E; done. }
    unfold change_bundle_id, get_info_prop. run. rewrite Hold. simpl.
    subst O N info' b.
    destruct Hcand as [cand Happ | provision entitlements cand Happ Hprov Hent Hid].
    - rewrite Happ. simpl.
      rewrite replace_wildcards_materialize.
      assert (set_new_appid (Some (Some (VStr cand))) (self s) = self s) as Hb
        by (rewrite <- Happ; apply set_new_appid_same).
      rewrite Hb in *.
      destruct s as [sb sfs slog]. simpl in *.
      destruct (compare_loop _ _ _); [done| |case_bool_decide; [done|]];
        (rewrite <- (Hwrite {| self := sb; fs := sfs; log := slog |}) by done;
         done).
    - rewrite Happ. simpl. rewrite Hprov. simpl. rewrite Hent. simpl.
      rewrite Hid. simpl. rewrite replace_wildcards_materialize.
      destruct (compare_loop _ _ _); [done| |case_bool_decide; [done|]];
        (rewrite <- (Hwrite {| self := set_new_appid (Some (Some (VStr cand))) (self s);
                               fs := fs s; log := log s |}) by done;
         done). }
  rewrite Hrun. split.
  - intros Hun. apply left_unchanged_loop in Hun.
    destruct (compare_loop _ _ _); [done|done|].
    by rewrite bool_decide_eq_true_2.
  - intros Hun. rewrite left_unchanged_loop in Hun.
    destruct (compare_loop _ _ _); [done|done|].
    by rewrite bool_decide_eq_false_2.
Qed.

Lemma change_bundle_id_spec_witness :
  (let s := Demo.on_disk (set_new_provision (Demo.profile "TEAM.com.acme.*")
                            "/p.mobileprovision" Demo.app_object) in
   let r := change_bundle_id (platform := Demo.demo) s in
   r.1 = Ok tt ∧
   info (self r.2) !! "CFBundleIdentifier" = Some (VStr "com.acme.App") ∧
   fs r.2 = fs s ∧ log r.2 = log s)
  ∧
  (let s := Demo.on_disk (set_new_appid (Some (Some (VStr "TEAM.com.other.*")))
                            Demo.app_object) in
   let r := change_bundle_id (platform := Demo.demo) s in
   r.1 = Ok tt ∧
   info (self r.2) !! "CFBundleIdentifier" = Some (VStr "com.other.isign") ∧
   fs r.2 !! "/A.app/Info.plist" = Some (File "bplist00")).
Proof.
  split.
  - intros s r. subst r.
    destruct (change_bundle_id_spec (platform := Demo.demo) s
                "com.acme.App" "TEAM.com.acme.*") as [Hsame _].
    + vm_compute. reflexivity.
    + eapply candidate_credential; vm_compute; reflexivity.
    + vm_compute. discriminate.
    + rewrite Hsame.
      * repeat apply conj; vm_compute; reflexivity.
      * apply left_unchanged_loop. vm_compute. exact I.
  - intros s r. subst r.
    destruct (change_bundle_id_spec (platform := Demo.demo) s
                "com.acme.App" "TEAM.com.other.*") as [_ Hnew].
    + vm_compute. reflexivity.
    + apply candidate_override. vm_compute. reflexivity.
    + vm_compute. discriminate.
    + rewrite Hnew.
      * repeat apply conj; vm_compute; reflexivity.
      * rewrite left_unchanged_loop. vm_compute. intros [].
Defined.

(** The three rewrites listed among the testable properties. *)
Example rewrite_wildcard_compatible :
  left_unchanged (Py.split "." "com.acme.App")
                 (tail (Py.split "." "TEAM.com.acme.*")).
Proof. apply left_unchanged_loop. vm_compute. exact I. Qed.

Example rewrite_mismatch :
  ¬ left_unchanged (Py.split "." "com.acme.App")
                   (tail (Py.split "." "TEAM.com.other.App"))
  ∧ Py.join "." (materialize (tail (Py.split "." "TEAM.com.other.App")))
    = "com.other.App".
Proof.
  split; [|vm_compute; reflexivity].
  rewrite left_unchanged_loop. vm_compute. intros [].
Qed.

Example rewrite_identical :
  left_unchanged (Py.split "." "com.acme.App")
                 (tail (Py.split "." "TEAM.com.acme.App")).
Proof. apply left_unchanged_loop. vm_compute. reflexivity. Qed.

(** ** The metadata store *)

(** The loop over the requested properties leaves the requested mapping
    laid over the current one, and raises the flag exactly when some
    requested entry is not already in the current mapping. *)
Lemma apply_props_spec (new_props cur : gmap string value) (c : bool) :
  (apply_props new_props (cur, c)).1 = new_props ∪ cur ∧
  ((apply_props new_props (cur, c)).2 = false ↔ c = false ∧ new_props ⊆ cur).
Proof.
  unfold apply_props.
  induction new_props as [|k v m Hk Hfst IH] using map_first_key_ind.
  - rewrite map_fold_empty. simpl. rewrite (left_id_L ∅ (∪)).
    split; [done|]. split; [intros ->; split; [done|apply map_empty_subseteq]|by intros [-> _]].
  - rewrite map_fold_insert_first_key by done.
    destruct IH as [IH1 IH2].
    destruct (map_fold _ (cur, c) m) as [acc flag]. simpl in *. subst acc.
    assert ((m ∪ cur) !! k = cur !! k) as Hlk
      by (rewrite lookup_union_r; done).
    rewrite Hlk.
    destruct (cur !! k) as [x|] eqn:Hcur; simpl.
    + destruct (Py.eqb x v) eqn:Heq; simpl.
      * apply eqb_eq in Heq as ->. split.
        -- apply map_eq. intros j. rewrite !lookup_union.
           destruct (decide (j = k)) as [->|Hne].
           ++ rewrite lookup_insert_eq, Hk, Hcur. done.
           ++ by rewrite lookup_insert_ne.
        -- rewrite IH2. split; intros [-> Hsub]; (split; [done|]).
           ++ by apply insert_subseteq_l.
           ++ etrans; [|exact Hsub]. by apply insert_subseteq.
      * apply eqb_neq in Heq. split.
        -- by rewrite insert_union_l.
        -- split; [done|]. intros [_ Hsub]. destruct Heq.
           assert (cur !! k = Some v) as Hv.
           { eapply lookup_weaken; [|exact Hsub]. apply lookup_insert_eq. }
           congruence.
    + split.
      * by rewrite insert_union_l.
      * split; [done|]. intros [_ Hsub].
        assert (cur !! k = Some v) as Hv.
        { eapply lookup_weaken; [|exact Hsub]. apply lookup_insert_eq. }
        congruence.
Qed.

(** Some requested key is missing from the current mapping or holds a
    different value there. *)
Definition differs (new_props cur : gmap string value) : Prop :=
  ¬ new_props ⊆ cur.

Lemma differs_witness (new_props cur : gmap string value) (k : string) (v : value) :
  new_props !! k = Some v → cur !! k ≠ Some v → differs new_props cur.
Proof.
  intros Hn Hc Hsub. apply Hc. by eapply lookup_weaken.
Qed.

Lemma apply_props_changed (new_props cur : gmap string value) :
  differs new_props cur →
  apply_props new_props (cur, false) = (new_props ∪ cur, true).
Proof.
  intros Hd. destruct (apply_props_spec new_props cur false) as [H1 H2].
  destruct (apply_props new_props (cur, false)) as [acc flag]. simpl in *.
  subst acc. destruct flag; [done|]. destruct Hd. by apply H2.
Qed.

Lemma apply_props_unchanged (new_props cur : gmap string value) :
  new_props ⊆ cur →
  apply_props new_props (cur, false) = (cur, false).
Proof.
  intros Hsub. destruct (apply_props_spec new_props cur false) as [H1 H2].
  destruct (apply_props new_props (cur, false)) as [acc flag]. simpl in *.
  subst acc. rewrite (proj2 H2) by done.
  f_equal. by apply map_subseteq_union.
Qed.

Lemma apply_props_flagged (new_props cur : gmap string value) :
  apply_props new_props (cur, true) = (new_props ∪ cur, true).
Proof.
  destruct (apply_props_spec new_props cur true) as [H1 H2].
  destruct (apply_props new_props (cur, true)) as [acc flag]. simpl in *.
  subst acc. destruct flag; [done|]. by destruct (proj1 H2).
Qed.

(** The special rule for URL schemes is skipped when the identifier is not
    requested, when the store has no [CFBundleURLTypes], or when the
    request sets that list itself. *)
Definition url_rule_skipped (new_props cur : gmap string value) : Prop :=
  new_props !! "CFBundleIdentifier" = None ∨
  cur !! "CFBundleURLTypes" = None ∨
  is_Some (new_props !! "CFBundleURLTypes").

Lemma update_url_types_skipped (new_props : gmap string value) (s : state) :
  url_rule_skipped new_props (info (self s)) →
  update_url_types new_props s = (Ok false, s).
Proof.
  unfold update_url_types. run.
  intros [Hid | [Hcur | [v Hnew]]].
  - by rewrite Hid.
  - rewrite Hcur. by destruct (new_props !! "CFBundleIdentifier").
  - rewrite Hnew.
    by destruct (new_props !! "CFBundleIdentifier"),
                (info (self s) !! "CFBundleURLTypes").
Qed.

(** The baseline an update leaves behind when it keeps one: the one
    already held, or else the mapping as the call found it. *)
Definition baseline (b : bundle) : gmap string value :=
  match orig_info b with
  | Some orig => orig
  | None => info b
  end.

(** The state after an update that has to write [info'] back. *)
Definition committed {platform : Platform} (info' : gmap string value)
    (s : state) : state :=
  {| self := set_info info' (set_orig_info (Some (baseline (self s))) (self s));
     fs := <[info_path (self s) :=
               File (writePlistToString (VDict info') true)]> (fs s);
     log := log s ++ [WritePlist (VDict info') (info_path (self s)) true] |}.

(** The state after an update that found nothing to change. *)
Definition discarded (s : state) : state :=
  {| self := set_orig_info None (self s); fs := fs s; log := log s |}.

Lemma writePlist_file {platform : Platform} (root : value) (p : string)
    (binary : bool) (s : state) :
  fs s !! p ≠ Some Dir →
  writePlist root p binary s
  = (Ok tt, {| self := self s;
               fs := <[p := File (writePlistToString root binary)]> (fs s);
               log := log s ++ [WritePlist root p binary] |}).
Proof.
  intros Hp. unfold writePlist, write_file. run.
  by destruct (fs s !! p) as [[?|]|].
Qed.

Lemma update_info_props_plain_changed {platform : Platform}
    (new_props : gmap string value) (s : state) :
  url_rule_skipped new_props (info (self s)) →
  differs new_props (info (self s)) →
  fs s !! info_path (self s) ≠ Some Dir →
  update_info_props new_props s
  = (Ok tt, committed (new_props ∪ info (self s)) s).
Proof.
  intros Hskip Hd Hfile. unfold update_info_props, committed, baseline.
  destruct s as [b store events]. simpl in *. run.
  destruct (orig_info b) as [orig|] eqn:Horig; simpl;
    rewrite update_url_types_skipped by done; simpl;
    rewrite (apply_props_changed _ _ Hd); simpl;
    rewrite writePlist_file by done; simpl.
  - f_equal. f_equal. destruct b; simpl in *. by subst.
  - done.
Qed.

Lemma update_info_props_plain_unchanged {platform : Platform}
    (new_props : gmap string value) (s : state) :
  url_rule_skipped new_props (info (self s)) →
  new_props ⊆ info (self s) →
  update_info_props new_props s = (Ok tt, discarded s).
Proof.
  intros Hskip Hsub. unfold update_info_props, discarded.
  destruct s as [b store events]. simpl in *. run.
  destruct (orig_info b) as [orig|] eqn:Horig; simpl;
    rewrite update_url_types_skipped by done; simpl;
    rewrite (apply_props_unchanged _ _ Hsub); simpl;
    by destruct b.
Qed.

(** ** Reverting a property (C6) *)

(** C6, as stated, fails: on a store that holds ["v0"] under ["K"],
    [update_info_props] with ["v1"] and then with ["v0"] both write, and
    [info_props_changed] answers true afterwards. *)
Lemma revert_reports_changes :
  info (self Demo.store_K) !! "K" = Some (VStr "v0")
  ∧ (update_info_props (platform := Demo.demo) {[ "K" := VStr "v1" ]}
       Demo.store_K).1 = Ok tt
  ∧ (update_info_props (platform := Demo.demo) {[ "K" := VStr "v0" ]}
       (update_info_props (platform := Demo.demo) {[ "K" := VStr "v1" ]}
          Demo.store_K).2).1 = Ok tt
  ∧ info_props_changed
      (self (update_info_props (platform := Demo.demo) {[ "K" := VStr "v0" ]}
               (update_info_props (platform := Demo.demo) {[ "K" := VStr "v1" ]}
                  Demo.store_K).2).2)
    ≠ false.
Proof. vm_compute. repeat split; discriminate. Qed.

(** C6, amended: on a store without a baseline that holds [v0] under [K],
    an update to a different [v1] followed by an update back to [v0]
    leaves the mapping equal to the one the first call found, and that
    mapping is the baseline still held: [info_props_changed] answers
    true, while [info_prop_changed] answers false for [K].  (When [K] is
    the bundle identifier the store is taken to have no URL schemes.) *)
Theorem revert_keeps_baseline {platform : Platform} (s : state) (K : string)
    (v0 v1 : value) :
  orig_info (self s) = None →
  info (self s) !! K = Some v0 →
  v1 ≠ v0 →
  (K = "CFBundleIdentifier" → info (self s) !! "CFBundleURLTypes" = None) →
  fs s !! info_path (self s) ≠ Some Dir →
  let r1 := update_info_props {[ K := v1 ]} s in
  let r2 := update_info_props {[ K := v0 ]} r1.2 in
  r1.1 = Ok tt ∧ r2.1 = Ok tt ∧
  info (self r2.2) = info (self s) ∧
  orig_info (self r2.2) = Some (info (self s)) ∧
  info_props_changed (self r2.2) = true ∧
  info_prop_changed (self r2.2) K = false.
Proof.
  intros Horig HK Hne Hurl Hfile r1 r2.
  assert (∀ v cur, (K = "CFBundleIdentifier" → cur !! "CFBundleURLTypes" = None) →
                   url_rule_skipped {[ K := v ]} cur) as Hskip.
  { intros v cur Hcur. destruct (decide (K = "CFBundleIdentifier")) as [->|Hk].
    - right. left. by apply Hcur.
    - left. by rewrite lookup_singleton_ne. }
  assert (r1 = (Ok tt, committed ({[ K := v1 ]} ∪ info (self s)) s)) as Hr1.
  { apply update_info_props_plain_changed; [by apply Hskip| |done].
    apply (differs_witness _ _ K v1); [apply lookup_singleton_eq|congruence]. }
  assert (r2 = (Ok tt, committed ({[ K := v0 ]} ∪ ({[ K := v1 ]} ∪ info (self s)))
                         (committed ({[ K := v1 ]} ∪ info (self s)) s))) as Hr2.
  { subst r2. rewrite Hr1. simpl.
    apply update_info_props_plain_changed; simpl.
    - apply Hskip. intros ->.
      rewrite lookup_union_r; [by apply Hurl|]. by rewrite lookup_singleton_ne.
    - apply (differs_witness _ _ K v0); [apply lookup_singleton_eq|].
      rewrite lookup_union_l', lookup_singleton_eq; [congruence|].
      rewrite lookup_singleton_eq. by eexists.
    - rewrite lookup_insert_eq. done. }
  assert ({[ K := v0 ]} ∪ ({[ K := v1 ]} ∪ info (self s)) = info (self s)) as Hback.
  { apply map_eq. intros j. rewrite !lookup_union.
    destruct (decide (j = K)) as [->|Hj].
    - rewrite !lookup_singleton_eq, HK. done.
    - rewrite !lookup_singleton_ne by done.
      by destruct (info (self s) !! j). }
  rewrite Hr2, Hr1, Hback. simpl. unfold baseline. simpl. rewrite Horig.
  repeat split; try done.
  unfold info_prop_changed. simpl.
  rewrite bool_decide_eq_false_2.
  - rewrite HK. by rewrite eqb_refl.
  - intros Hempty. rewrite Hempty, lookup_empty in HK. done.
Qed.

Lemma revert_keeps_baseline_witness :
  info_props_changed
    (self (update_info_props (platform := Demo.demo) {[ "K" := VStr "v0" ]}
             (update_info_props (platform := Demo.demo) {[ "K" := VStr "v1" ]}
                Demo.store_K).2).2) = true
  ∧ info_prop_changed
      (self (update_info_props (platform := Demo.demo) {[ "K" := VStr "v0" ]}
               (update_info_props (platform := Demo.demo) {[ "K" := VStr "v1" ]}
                  Demo.store_K).2).2) "K" = false.
Proof.
  destruct (revert_keeps_baseline (platform := Demo.demo) Demo.store_K "K"
              (VStr "v0") (VStr "v1")) as (_ & _ & _ & _ & Hall & Hkey).
  - vm_compute. reflexivity.
  - vm_compute. reflexivity.
  - discriminate.
  - discriminate.
  - vm_compute. discriminate.
  - split; [exact Hall | exact Hkey].
Defined.

(** ** URL schemes follow the identifier (C8) *)

(** What the special rule does to one scheme entry: an entry whose
    [CFBundleURLName] is the old identifier gets the new one, any other
    entry is left as it is. *)
Definition scheme_rewritten (old new e e' : value) : Prop :=
  ∃ d, e = VDict d ∧
       ((d !! "CFBundleURLName" = Some old ∧
         e' = VDict (<["CFBundleURLName" := new]> d)) ∨
        (d !! "CFBundleURLName" ≠ Some old ∧ e' = e)).

Definition is_dict (v : value) : Prop := ∃ d, v = VDict d.

Lemma url_type_step_dict (old new : value) (d : gmap string value) :
  ∃ e' c, url_type_step old new (VDict d) = Ok (e', c) ∧
          scheme_rewritten old new (VDict d) e'.
Proof.
  unfold url_type_step, scheme_rewritten. simpl.
  destruct (d !! "CFBundleURLName") as [name|] eqn:Hname; simpl.
  - destruct (Py.eqb name old) eqn:Heq.
    + apply eqb_eq in Heq as ->. eexists _, _. split; [done|].
      exists d. split; [done|]. by left.
    + apply eqb_neq in Heq. eexists _, _. split; [done|].
      exists d. split; [done|]. right. split; [congruence|done].
  - eexists _, _. split; [done|]. exists d. split; [done|]. right.
    split; [congruence|done].
Qed.

Lemma rewrite_url_names_dicts (old new : value) (entries : list value) :
  Forall is_dict entries →
  ∃ entries' c, rewrite_url_names old new entries = (entries', c, None) ∧
                Forall2 (scheme_rewritten old new) entries entries'.
Proof.
  induction 1 as [|e entries [d ->] _ (entries' & c' & IH & HF)]; simpl.
  - by exists [], false.
  - destruct (url_type_step_dict old new d) as (e' & c & -> & He).
    rewrite IH. exists (e' :: entries'), (c || c'). split; [done|].
    by constructor.
Qed.

(** C8: when the store has a list of URL schemes, each of them a
    dictionary, and the update requests an identifier without setting
    that list itself, the update returns normally and leaves under
    [CFBundleURLTypes] the same list in the same order, where every entry
    whose [CFBundleURLName] was the old identifier now has the new one and
    every other entry, named differently or not at all, is as before. *)
Theorem update_info_props_url_schemes {platform : Platform} (s : state)
    (new_props : gmap string value) (old new : value) (entries : list value) :
  info (self s) !! "CFBundleIdentifier" = Some old →
  new_props !! "CFBundleIdentifier" = Some new →
  info (self s) !! "CFBundleURLTypes" = Some (VList entries) →
  new_props !! "CFBundleURLTypes" = None →
  Forall is_dict entries →
  fs s !! info_path (self s) ≠ Some Dir →
  ∃ entries',
    (update_info_props new_props s).1 = Ok tt ∧
    info (self (update_info_props new_props s).2) !! "CFBundleURLTypes"
    = Some (VList entries') ∧
    Forall2 (scheme_rewritten old new) entries entries'.
Proof.
  intros Hold Hnew Hurl Hnourl Hdicts Hfile.
  destruct (rewrite_url_names_dicts old new entries Hdicts)
    as (entries' & c & Hrw & HF).
  exists entries'. split_and!; [| |done].
  all: unfold update_info_props, update_url_types, get_info_prop;
    destruct s as [b store events]; simpl in *; run;
    destruct (orig_info b) as [orig|]; simpl;
    rewrite Hnew, Hurl, Hnourl; simpl; rewrite Hold; simpl;
    rewrite Hrw; simpl;
    match goal with
    | |- context [apply_props ?np (?cur, ?flag)] =>
        pose proof (apply_props_spec np cur flag) as [Hinfo _];
        destruct (apply_props np (cur, flag)) as [info' changed];
        simpl in Hinfo; subst info'
    end; simpl;
    destruct changed; simpl; rewrite ?writePlist_file by done; simpl;
    try done;
    rewrite lookup_union_r by done; apply lookup_insert_eq.
Qed.

Lemma update_info_props_url_schemes_witness :
  info (self (update_info_props (platform := Demo.demo)
                {[ "CFBundleIdentifier" := VStr "com.other.App" ]}
                Demo.store_url).2) !! "CFBundleURLTypes"
  = Some (VList [VDict {[ "CFBundleURLName" := VStr "com.other.App";
                          "CFBundleURLSchemes" := VList [VStr "acme"] ]}]).
Proof.
  destruct (update_info_props_url_schemes (platform := Demo.demo) Demo.store_url
              {[ "CFBundleIdentifier" := VStr "com.other.App" ]}
              (VStr "com.acme.App") (VStr "com.other.App")
              [VDict {[ "CFBundleURLName" := VStr "com.acme.App";
                        "CFBundleURLSchemes" := VList [VStr "acme"] ]}])
    as (entries' & _ & _ & _).
  - vm_compute. reflexivity.
  - vm_compute. reflexivity.
  - vm_compute. reflexivity.
  - vm_compute. reflexivity.
  - repeat constructor. by eexists.
  - vm_compute. discriminate.
  - vm_compute. reflexivity.
Defined.

(** ** A request that changes nothing (C7, C10) *)

Lemma same_identifier_requested :
  {[ "CFBundleIdentifier" := VStr "com.acme.App" ]}
    ⊆ info (self Demo.store_url).
Proof.
  apply map_subseteq_spec. intros k v Hk.
  apply lookup_singleton_Some in Hk as [<- <-]. vm_compute. reflexivity.
Qed.

(** C7 fails on the code: the store [Demo.store_url] has a URL scheme
    named after its identifier, and the request repeats that identifier.
    No requested value differs from the current mapping, the mapping is
    the same after the call, and yet the property file is written. *)
Theorem update_info_props_spurious_write :
  ¬ differs {[ "CFBundleIdentifier" := VStr "com.acme.App" ]}
            (info (self Demo.store_url))
  ∧ (update_info_props (platform := Demo.demo)
       {[ "CFBundleIdentifier" := VStr "com.acme.App" ]} Demo.store_url).1
    = Ok tt
  ∧ info (self (update_info_props (platform := Demo.demo)
                  {[ "CFBundleIdentifier" := VStr "com.acme.App" ]}
                  Demo.store_url).2)
    = info (self Demo.store_url)
  ∧ log (update_info_props (platform := Demo.demo)
           {[ "CFBundleIdentifier" := VStr "com.acme.App" ]} Demo.store_url).2
    = [WritePlist (VDict (info (self Demo.store_url))) "/A.app/Info.plist" true].
Proof.
  split.
  - intros Hd. apply Hd, same_identifier_requested.
  - repeat apply conj; vm_compute; reflexivity.
Qed.

(** C10 fails on the code at the same input: nothing requested differs
    from the current mapping, the store held no baseline before the call,
    and after the call a baseline is held, so [info_props_changed]
    answers true. *)
Theorem update_info_props_spurious_baseline :
  {[ "CFBundleIdentifier" := VStr "com.acme.App" ]}
    ⊆ info (self Demo.store_url)
  ∧ orig_info (self Demo.store_url) = None
  ∧ (update_info_props (platform := Demo.demo)
       {[ "CFBundleIdentifier" := VStr "com.acme.App" ]} Demo.store_url).1
    = Ok tt
  ∧ orig_info (self (update_info_props (platform := Demo.demo)
                       {[ "CFBundleIdentifier" := VStr "com.acme.App" ]}
                       Demo.store_url).2)
    = Some (info (self Demo.store_url))
  ∧ info_props_changed
      (self (update_info_props (platform := Demo.demo)
               {[ "CFBundleIdentifier" := VStr "com.acme.App" ]}
               Demo.store_url).2)
    = true.
Proof.
  split; [apply same_identifier_requested|].
  repeat apply conj; vm_compute; reflexivity.
Qed.

(** Away from the special rule for URL schemes both claims hold: the
    property file is written exactly when a requested entry differs, and a
    request that changes nothing drops the baseline. *)
Lemma update_info_props_write_iff_differs {platform : Platform}
    (new_props : gmap string value) (s : state) :
  url_rule_skipped new_props (info (self s)) →
  fs s !! info_path (self s) ≠ Some Dir →
  (differs new_props (info (self s)) →
   log (update_info_props new_props s).2
   = (log s ++ [WritePlist (VDict (new_props ∪ info (self s)))
                           (info_path (self s)) true])%list) ∧
  (new_props ⊆ info (self s) →
   log (update_info_props new_props s).2 = log s ∧
   fs (update_info_props new_props s).2 = fs s ∧
   info_props_changed (self (update_info_props new_props s).2) = false ∧
   ∀ key, info_prop_changed (self (update_info_props new_props s).2) key = false).
Proof.
  intros Hskip Hfile. split.
  - intros Hd. by rewrite update_info_props_plain_changed.
  - intros Hsub. by rewrite update_info_props_plain_unchanged.
Qed.

(** * Further properties of the module *)

(** ** Splitting and joining identifiers *)

(** [c] does not occur in [s]. *)
Definition sep_free (c : ascii) (s : string) : Prop :=
  c ∉ list_ascii_of_string s.

Lemma split_empty (c : ascii) : Py.split c "" = [""].
Proof. reflexivity. Qed.

Lemma split_String (c a : ascii) (s : string) :
  Py.split c (String a s)
  = if bool_decide (a = c) then "" :: Py.split c s
    else match Py.split c s with
         | h :: t => String a h :: t
         | [] => [String a ""]
         end.
Proof. reflexivity. Qed.

Lemma join_one (sep x : string) : Py.join sep [x] = x.
Proof. reflexivity. Qed.

Lemma join_more (sep x y : string) (l : list string) :
  Py.join sep (x :: y :: l) = x +:+ sep +:+ Py.join sep (y :: l).
Proof. reflexivity. Qed.

Lemma append_empty (s : string) : "" +:+ s = s.
Proof. reflexivity. Qed.

Lemma append_String (a : ascii) (s r : string) :
  String a s +:+ r = String a (s +:+ r).
Proof. reflexivity. Qed.

Lemma split_nonempty (c : ascii) (s : string) : Py.split c s ≠ [].
Proof.
  destruct s as [|a s]; [done|]. rewrite split_String.
  case_bool_decide; [done|]. by destruct (Py.split c s).
Qed.

(** Joining the segments of a string with the separator it was split on
    gives the string back. *)
Lemma join_split (c : ascii) (s : string) :
  Py.join (String c "") (Py.split c s) = s.
Proof.
  induction s as [|a s IH]; [done|]. rewrite split_String.
  pose proof (split_nonempty c s) as Hne.
  destruct (Py.split c s) as [|h t]; [done|].
  case_bool_decide as Hac.
  - subst a. rewrite join_more, IH. done.
  - destruct t as [|h' t].
    + rewrite join_one in *. by subst.
    + rewrite join_more in *. rewrite <- IH. reflexivity.
Qed.

Lemma split_sep_free (c : ascii) (s : string) :
  Forall (sep_free c) (Py.split c s).
Proof.
  assert (sep_free c "") as Hempty by (unfold sep_free; simpl; apply not_elem_of_nil).
  induction s as [|a s IH]; [by constructor|]. rewrite split_String.
  case_bool_decide as Hac; [by constructor|].
  destruct (Py.split c s) as [|h t].
  - constructor; [|done]. unfold sep_free. simpl.
    intros Hin. apply list_elem_of_singleton in Hin. congruence.
  - inversion IH as [|? ? Hh Ht]; subst. constructor; [|done].
    unfold sep_free in *. simpl. intros Hin.
    apply elem_of_cons in Hin as [->|Hin]; done.
Qed.

Lemma split_segment (c : ascii) (x r : string) :
  sep_free c x →
  Py.split c (x +:+ String c r) = x :: Py.split c r.
Proof.
  unfold sep_free. induction x as [|a x IH]; simpl; intros Hfree.
  - by rewrite append_empty, split_String, bool_decide_eq_true_2.
  - rewrite append_String, split_String, bool_decide_eq_false_2.
    + rewrite IH; [done|]. intros Hin. apply Hfree. by right.
    + intros ->. apply Hfree. by left.
Qed.

Lemma split_single (c : ascii) (x : string) :
  sep_free c x → Py.split c x = [x].
Proof.
  unfold sep_free. induction x as [|a x IH]; simpl; intros Hfree; [done|].
  rewrite split_String, bool_decide_eq_false_2.
  - rewrite IH; [done|]. intros Hin. apply Hfree. by right.
  - intros ->. apply Hfree. by left.
Qed.

(** Splitting a join of separator-free segments gives the segments back. *)
Lemma split_join (c : ascii) (l : list string) :
  l ≠ [] → Forall (sep_free c) l →
  Py.split c (Py.join (String c "") l) = l.
Proof.
  intros Hne HF. induction HF as [|x l Hx HF IH]; [done|].
  destruct l as [|y l].
  - rewrite join_one. by apply split_single.
  - rewrite join_more, append_String, append_empty.
    rewrite split_segment by done. by rewrite IH.
Qed.

(** ** The rewritten identifier *)

Lemma isign_sep_free : sep_free "." "isign".
Proof.
  unfold sep_free. simpl. intros Hin.
  repeat (apply elem_of_cons in Hin as [Hin|Hin]; [discriminate|]).
  by apply elem_of_nil in Hin.
Qed.

Lemma materialize_sep_free (N : list string) :
  Forall (sep_free ".") N → Forall (sep_free ".") (materialize N).
Proof.
  unfold materialize. induction 1 as [|x N Hx _ IH]; simpl; constructor; [|done].
  case_bool_decide; [apply isign_sep_free | done].
Qed.

Lemma materialize_no_wildcard (N : list string) : "*" ∉ materialize N.
Proof.
  unfold materialize. intros Hin. apply list_elem_of_fmap in Hin as (x & Hx & _).
  by case_bool_decide.
Qed.

Lemma materialize_id (N : list string) : "*" ∉ N → materialize N = N.
Proof.
  unfold materialize. induction N as [|x N IH]; intros Hfree; [done|].
  rewrite fmap_cons, bool_decide_eq_false_2.
  - rewrite IH; [done|]. intros Hin. apply Hfree. by right.
  - intros ->. apply Hfree. by left.
Qed.

Lemma tail_split_sep_free (c : ascii) (s : string) :
  Forall (sep_free c) (tail (Py.split c s)).
Proof.
  pose proof (split_sep_free c s) as HF.
  destruct HF; simpl; [constructor | done].
Qed.

Lemma left_unchanged_dec (O N : list string) :
  {left_unchanged O N} + {¬ left_unchanged O N}.
Proof.
  pose proof (left_unchanged_loop O N) as Hloop.
  destruct (compare_loop O N (seq 0 (Nat.min (length O) (length N)))).
  - left. by apply Hloop.
  - right. intros Hun. by apply Hloop in Hun.
  - destruct (decide (length O = length N)) as [Hlen|Hlen].
    + left. by apply Hloop.
    + right. intros Hun. by apply Hloop in Hun.
Qed.

Lemma compare_loop_not_Broke (O N : list string) (n k : nat) :
  (∀ i, N !! i ≠ Some "*" → N !! i = O !! i) →
  compare_loop O N (seq k n) ≠ Broke.
Proof.
  intros Hagree. revert k. induction n as [|n IH]; intros k; simpl; [done|].
  case_bool_decide as Hstar; [done|].
  case_bool_decide as Hne; [|apply IH].
  destruct Hne. by apply Hagree.
Qed.

(** Against the identifier a rewrite produced, the same candidate asks
    for no further rewrite. *)
Lemma left_unchanged_materialize (N : list string) :
  left_unchanged (materialize N) N.
Proof.
  apply left_unchanged_loop.
  pose proof (compare_loop_not_Broke (materialize N) N
                (Nat.min (length (materialize N)) (length N)) 0) as Hnb.
  destruct (compare_loop _ _ _); [done| |].
  - destruct Hnb; [|done]. intros i Hi. unfold materialize.
    rewrite list_lookup_fmap. destruct (N !! i) as [x|]; [|done]. simpl.
    rewrite bool_decide_eq_false_2; [done|]. congruence.
  - unfold materialize. by rewrite length_fmap.
Qed.

(** The two outcomes of [change_bundle_id]: the object only remembers
    the candidate, or the identifier is rewritten and the property file
    written back. *)
Lemma change_bundle_id_outcome {platform : Platform}
    (s : state) (old cand : string) :
  info (self s) !! "CFBundleIdentifier" = Some (VStr old) →
  candidate (self s) cand →
  fs s !! info_path (self s) ≠ Some Dir →
  let O := Py.split "." old in
  let N := tail (Py.split "." cand) in
  let b := set_new_appid (Some (Some (VStr cand))) (self s) in
  let info' := <["CFBundleIdentifier" := VStr (Py.join "." (materialize N))]>
                 (info (self s)) in
  (left_unchanged O N →
   change_bundle_id s = (Ok tt, {| self := b; fs := fs s; log := log s |})) ∧
  (¬ left_unchanged O N →
   change_bundle_id s
   = (Ok tt,
      {| self := set_info info' b;
         fs := <[info_path (self s) :=
                   File (writePlistToString (VDict info') true)]> (fs s);
         log := log s ++ [WritePlist (VDict info') (info_path (self s)) true] |})).
Proof.
  intros Hold Hcand Hfile O N b info'.
  assert (change_bundle_id s =
          match compare_loop O N (seq 0 (Nat.min (length O) (length N))) with
          | Returned => (Ok tt, {| self := b; fs := fs s; log := log s |})
          | Broke =>
              (Ok tt,
               {| self := set_info info' b;
                  fs := <[info_path (self s) :=
                            File (writePlistToString (VDict info') true)]> (fs s);
                  log := log s ++
                         [WritePlist (VDict info') (info_path (self s)) true] |})
          | Completed =>
              if bool_decide (length O = length N)
              then (Ok tt, {| self := b; fs := fs s; log := log s |})
              else
                (Ok tt,
                 {| self := set_info info' b;
                    fs := <[info_path (self s) :=
                              File (writePlistToString (VDict info') true)]> (fs s);
                    log := log s ++
                           [WritePlist (VDict info') (info_path (self s)) true] |})
          end) as Hrun.
  { assert (∀ s1 : state,
              self s1 = b → fs s1 = fs s → log s1 = log s →
              (writePlist (VDict info') (info_path (self s)) true)
                {| self := set_info info' (self s1); fs := fs s1; log := log s1 |}
              = (Ok tt,
                 {| self := set_info info' b;
                    fs := <[info_path (self s) :=
                              File (writePlistToString (VDict info') true)]> (fs s);
                    log := log s ++
                           [WritePlist (VDict info') (info_path (self s)) true] |}))
      as Hwrite.
    { intros s1 -> Hfs1 ->. unfold writePlist, write_file. run. rewrite Hfs1.
      destruct (fs s !! info_path (self s)) as [[?|]|] eqn:E; done. }
    unfold change_bundle_id, get_info_prop. run. rewrite Hold. simpl.
    subst O N info' b.
    destruct Hcand as [cand Happ | provision entitlements cand Happ Hprov Hent Hid].
    - rewrite Happ. simpl.
      rewrite replace_wildcards_materialize.
      assert (set_new_appid (Some (Some (VStr cand))) (self s) = self s) as Hb
        by (rewrite <- Happ; apply set_new_appid_same).
      rewrite Hb in *.
      destruct s as [sb sfs slog]. simpl in *.
      destruct (compare_loop _ _ _); [done| |case_bool_decide; [done|]];
        (rewrite <- (Hwrite {| self := sb; fs := sfs; log := slog |}) by done;
         done).
    - rewrite Happ. simpl. rewrite Hprov. simpl. rewrite Hent. simpl.
      rewrite Hid. simpl. rewrite replace_wildcards_materialize.
      destruct (compare_loop _ _ _); [done| |case_bool_decide; [done|]];
        (rewrite <- (Hwrite {| self := set_new_appid (Some (Some (VStr cand))) (self s);
                               fs := fs s; log := log s |}) by done;
         done). }
  rewrite Hrun. split.
  - intros Hun. apply left_unchanged_loop in Hun.
    destruct (compare_loop _ _ _); [done|done|].
    by rewrite bool_decide_eq_true_2.
  - intros Hun. rewrite left_unchanged_loop in Hun.
    destruct (compare_loop _ _ _); [done|done|].
    by rewrite bool_decide_eq_false_2.
Qed.

(** After a rewrite the stored identifier has no wildcard segment left. *)
Theorem change_bundle_id_no_wildcard {platform : Platform}
    (s : state) (old cand : string) :
  info (self s) !! "CFBundleIdentifier" = Some (VStr old) →
  candidate (self s) cand →
  fs s !! info_path (self s) ≠ Some Dir →
  ¬ left_unchanged (Py.split "." old) (tail (Py.split "." cand)) →
  ∃ newid,
    (change_bundle_id s).1 = Ok tt ∧
    info (self (change_bundle_id s).2) !! "CFBundleIdentifier"
    = Some (VStr newid) ∧
    "*" ∉ Py.split "." newid.
Proof.
  intros Hold Hcand Hfile Hrew.
  destruct (change_bundle_id_outcome s old cand Hold Hcand Hfile) as [_ Hnew].
  rewrite (Hnew Hrew). simpl.
  exists (Py.join "." (materialize (tail (Py.split "." cand)))).
  split; [done|]. split; [apply lookup_insert_eq|].
  destruct (tail (Py.split "." cand)) as [|x N] eqn:HN.
  - simpl. intros Hin. apply list_elem_of_singleton in Hin. discriminate.
  - rewrite split_join.
    + apply materialize_no_wildcard.
    + done.
    + apply materialize_sep_free. rewrite <- HN. apply tail_split_sep_free.
Qed.

Lemma change_bundle_id_no_wildcard_witness :
  ∃ newid,
    info (self (change_bundle_id (platform := Demo.demo)
                  (Demo.on_disk (set_new_appid
                                   (Some (Some (VStr "TEAM.com.other.*")))
                                   Demo.app_object))).2)
      !! "CFBundleIdentifier" = Some (VStr newid) ∧
    "*" ∉ Py.split "." newid.
Proof.
  destruct (change_bundle_id_no_wildcard (platform := Demo.demo)
              (Demo.on_disk (set_new_appid
                               (Some (Some (VStr "TEAM.com.other.*")))
                               Demo.app_object))
              "com.acme.App" "TEAM.com.other.*") as (newid & _ & Hid & Hfree).
  - vm_compute. reflexivity.
  - apply candidate_override. vm_compute. reflexivity.
  - vm_compute. discriminate.
  - rewrite left_unchanged_loop. vm_compute. intros [].
  - exists newid. split; [exact Hid | exact Hfree].
Defined.

(** When the candidate has no wildcard segment, a rewrite stores the
    candidate without its first segment and the dot that follows it. *)
Theorem change_bundle_id_strips_prefix {platform : Platform}
    (s : state) (old cand : string) :
  info (self s) !! "CFBundleIdentifier" = Some (VStr old) →
  candidate (self s) cand →
  fs s !! info_path (self s) ≠ Some Dir →
  ¬ left_unchanged (Py.split "." old) (tail (Py.split "." cand)) →
  "*" ∉ tail (Py.split "." cand) →
  tail (Py.split "." cand) ≠ [] →
  ∃ team newid,
    cand = team +:+ "." +:+ newid ∧
    sep_free "." team ∧
    info (self (change_bundle_id s).2) !! "CFBundleIdentifier"
    = Some (VStr newid).
Proof.
  intros Hold Hcand Hfile Hrew Hstar Hne.
  destruct (change_bundle_id_outcome s old cand Hold Hcand Hfile) as [_ Hnew].
  rewrite (Hnew Hrew). simpl. rewrite materialize_id by done.
  pose proof (join_split "." cand) as Hjoin.
  pose proof (split_sep_free "." cand) as Hfree.
  destruct (Py.split "." cand) as [|team N]; [done|].
  simpl in *. destruct N as [|x N]; [done|].
  exists team, (Py.join "." (x :: N)). split_and!.
  - by rewrite join_more in Hjoin.
  - by inversion Hfree.
  - apply lookup_insert_eq.
Qed.

Lemma change_bundle_id_strips_prefix_witness :
  ∃ team newid,
    "TEAM.com.other.App" = team +:+ "." +:+ newid ∧
    info (self (change_bundle_id (platform := Demo.demo)
                  (Demo.on_disk (set_new_appid
                                   (Some (Some (VStr "TEAM.com.other.App")))
                                   Demo.app_object))).2)
      !! "CFBundleIdentifier" = Some (VStr newid).
Proof.
  destruct (change_bundle_id_strips_prefix (platform := Demo.demo)
              (Demo.on_disk (set_new_appid
                               (Some (Some (VStr "TEAM.com.other.App")))
                               Demo.app_object))
              "com.acme.App" "TEAM.com.other.App")
    as (team & newid & Hcand & _ & Hid).
  - vm_compute. reflexivity.
  - apply candidate_override. vm_compute. reflexivity.
  - vm_compute. discriminate.
  - rewrite left_unchanged_loop. vm_compute. intros [].
  - vm_compute. intros Hin.
    repeat (apply elem_of_cons in Hin as [Hin|Hin]; [discriminate|]).
    by apply elem_of_nil in Hin.
  - vm_compute. discriminate.
  - exists team, newid. split; [exact Hcand | exact Hid].
Defined.

Lemma set_new_appid_twice (a : option (option value)) (b : bundle) :
  set_new_appid a (set_new_appid a b) = set_new_appid a b.
Proof. done. Qed.

(** A second [change_bundle_id] with the same candidate changes nothing
    more: neither the identifier, nor the file store, nor the log.  (The
    candidate is taken to have at least one dot, so that some segment is
    left after the first.) *)
Theorem change_bundle_id_idempotent {platform : Platform}
    (s : state) (old cand : string) :
  info (self s) !! "CFBundleIdentifier" = Some (VStr old) →
  candidate (self s) cand →
  fs s !! info_path (self s) ≠ Some Dir →
  tail (Py.split "." cand) ≠ [] →
  (change_bundle_id s).1 = Ok tt ∧
  change_bundle_id (change_bundle_id s).2 = (Ok tt, (change_bundle_id s).2).
Proof.
  intros Hold Hcand Hfile Hne.
  destruct (change_bundle_id_outcome s old cand Hold Hcand Hfile) as [Hsame Hnew].
  destruct (left_unchanged_dec (Py.split "." old) (tail (Py.split "." cand)))
    as [Hun|Hrew].
  - rewrite (Hsame Hun). simpl. split; [done|].
    match goal with |- change_bundle_id ?s1 = _ => set (s1' := s1) end.
    destruct (change_bundle_id_outcome s1' old cand) as [Hsame' _]; subst s1'; simpl.
    + done.
    + by apply candidate_override.
    + done.
    + rewrite (Hsame' Hun). simpl. by rewrite set_new_appid_twice.
  - rewrite (Hnew Hrew). simpl. split; [done|].
    match goal with |- change_bundle_id ?s1 = _ => set (s1' := s1) end.
    destruct (change_bundle_id_outcome s1'
                (Py.join "." (materialize (tail (Py.split "." cand)))) cand)
      as [Hsame' _]; subst s1'; simpl.
    + apply lookup_insert_eq.
    + by apply candidate_override.
    + by rewrite lookup_insert_eq.
    + rewrite Hsame'; simpl.
      * done.
      * rewrite split_join.
        -- apply left_unchanged_materialize.
        -- unfold materialize. by destruct (tail (Py.split "." cand)).
        -- apply materialize_sep_free, tail_split_sep_free.
Qed.

Lemma change_bundle_id_idempotent_witness :
  change_bundle_id (platform := Demo.demo)
    (change_bundle_id (platform := Demo.demo)
       (Demo.on_disk (set_new_appid (Some (Some (VStr "TEAM.com.other.*")))
                        Demo.app_object))).2
  = (Ok tt,
     (change_bundle_id (platform := Demo.demo)
        (Demo.on_disk (set_new_appid (Some (Some (VStr "TEAM.com.other.*")))
                         Demo.app_object))).2).
Proof.
  apply (change_bundle_id_idempotent (platform := Demo.demo) _
           "com.acme.App" "TEAM.com.other.*").
  - vm_compute. reflexivity.
  - apply candidate_override. vm_compute. reflexivity.
  - vm_compute. discriminate.
  - vm_compute. discriminate.
Defined.

(** ** Loose libraries: [sign_dylibs] *)

(** The files a loop over [files] gets signed before the signature
    generator refuses one. *)
Fixpoint signed_prefix (accept : string → bool) (files : list string)
  : list string :=
  match files with
  | [] => []
  | f :: rest => if accept f then f :: signed_prefix accept rest else []
  end.

Lemma for_each_sign_binary {platform : Platform} (target : signable)
    (files : list string) (b : bundle) (store : gmap string node)
    (events : list event) :
  for_each files (sign_binary target)
    {| self := b; fs := store; log := events |}
  = (if forallb (λ f, signable_sign target b f store) files
     then Ok tt else Raise SignFailure,
     {| self := b; fs := store;
        log := events ++ (Sign target b <$>
                            signed_prefix (λ f, signable_sign target b f store)
                                          files) |}).
Proof.
  revert events. induction files as [|f files IH]; intros events; simpl.
  - by rewrite app_nil_r.
  - unfold sign_binary at 1. run.
    destruct (signable_sign target b f store); simpl.
    + rewrite IH. by rewrite <- app_assoc.
    + by rewrite app_nil_r.
Qed.


Lemma signed_prefix_all (accept : string → bool) (files : list string) :
  forallb accept files = true → signed_prefix accept files = files.
Proof.
  induction files as [|f files IH]; simpl; [done|].
  destruct (accept f); simpl; [|done]. intros Hall. by rewrite IH.
Qed.

(** ** Plug-ins of a bundle that is not an application *)

(** A bundle object without the [new_appid] attribute, which is what
    [Framework(path)] builds, cannot re-sign a plug-in: directories without
    [Info.plist] are skipped, and the first plug-in that has one raises
    the attribute error before anything is done. *)
Theorem sign_plugins_without_appid {platform : Platform}
    (sign_child : M unit) (plugins_path : string) (s : state) :
  new_appid (self s) = None →
  sign_plugins sign_child plugins_path s
  = (if existsb
          (λ appex_path,
             bool_decide (is_Some (fs s !! PosixPath.join appex_path "Info.plist")))
          (glob (fs s) (PosixPath.join plugins_path "*.appex"))
     then Raise (AttributeError "new_appid") else Ok tt,
     s).
Proof.
  intros Hattr. unfold sign_plugins, glob_glob. run.
  induction (glob (fs s) (PosixPath.join plugins_path "*.appex"))
    as [|appex_path rest IH]; simpl; [done|].
  run. destruct (bool_decide (is_Some _)); simpl.
  - by rewrite Hattr.
  - apply IH.
Qed.

Lemma sign_plugins_without_appid_witness :
  sign_plugins (platform := Demo.demo) (ret tt) "/A.app/PlugIns"
    (Demo.boot Demo.disk)
  = (Raise (AttributeError "new_appid"), Demo.boot Demo.disk).
Proof.
  rewrite (sign_plugins_without_appid (platform := Demo.demo));
    [|reflexivity].
  vm_compute. reflexivity.
Defined.

(** ** The credential steps of an application *)



(** [App.create_entitlements] writes the [Entitlements] entry of the
    loaded credential, as a text property list, to the entitlements path
    and changes nothing else.  Without a loaded credential it raises the
    attribute error, and with a credential that has no [Entitlements] the
    key error, in both cases before anything is written. *)
Theorem App_create_entitlements_spec {platform : Platform} (s : state) :
  (new_provision (self s) = None →
   App_create_entitlements s = (Raise (AttributeError "new_provision"), s)) ∧
  (∀ cred, new_provision (self s) = Some (VDict cred) →
           cred !! "Entitlements" = None →
           App_create_entitlements s = (Raise (KeyError "Entitlements"), s)) ∧
  (∀ cred entitlements dst,
     new_provision (self s) = Some (VDict cred) →
     cred !! "Entitlements" = Some entitlements →
     entitlements_path (self s) = Some dst →
     fs s !! dst ≠ Some Dir →
     App_create_entitlements s
     = (Ok tt,
        {| self := self s;
           fs := <[dst := File (writePlistToString entitlements false)]> (fs s);
           log := log s ++ [WritePlist entitlements dst false] |})).
Proof.
  unfold App_create_entitlements. run. split_and!.
  - intros Hnone. by rewrite Hnone.
  - intros cred Hcred Hent. rewrite Hcred. simpl. by rewrite Hent.
  - intros cred entitlements dst Hcred Hent Hdst Hfile.
    rewrite Hcred. simpl. rewrite Hent. simpl. rewrite Hdst. simpl.
    by rewrite writePlist_file.
Qed.

Lemma App_create_entitlements_spec_witness :
  App_create_entitlements (platform := Demo.demo) (Demo.on_disk Demo.app_object)
  = (Raise (AttributeError "new_provision"), Demo.on_disk Demo.app_object)
  ∧ log (App_create_entitlements (platform := Demo.demo)
           (Demo.on_disk (set_new_provision (Demo.profile "TEAM.com.acme.*")
                            "/p.mobileprovision" Demo.app_object))).2
    = [WritePlist (VDict {[ "application-identifier" := VStr "TEAM.com.acme.*" ]})
                  "/A.app/Entitlements.plist" false].
Proof.
  split.
  - apply (proj1 (App_create_entitlements_spec (platform := Demo.demo) _)).
    reflexivity.
  - rewrite (proj2 (proj2 (App_create_entitlements_spec (platform := Demo.demo) _))
               {[ "Entitlements" :=
                    VDict {[ "application-identifier" := VStr "TEAM.com.acme.*" ]} ]}
               (VDict {[ "application-identifier" := VStr "TEAM.com.acme.*" ]})
               "/A.app/Entitlements.plist").
    + reflexivity.
    + reflexivity.
    + vm_compute. reflexivity.
    + reflexivity.
    + vm_compute. discriminate.
Defined.

(** ** Building the objects *)

(** Every object [App(path, new_appid)] (or [AppEx]) succeeds in building
    is native: its metadata is the dictionary decoded from
    [<path>/Info.plist] and passes [is_info_plist_native].  It starts
    with no baseline, no seal and no credential, remembers the requested
    identifier, and keeps its entitlements and its provisioning profile
    inside the bundle directory.  Building it changes nothing. *)
Theorem App_init_object {platform : Platform} (c : bundle_class) (p : string)
    (appid : option value) (s : state) (b : bundle) (s' : state) :
  App_init c p appid s = (Ok b, s') →
  s' = s ∧
  (∃ data, fs s !! PosixPath.join p "Info.plist" = Some (File data) ∧
           readPlistFromString data = Some (VDict (info b))) ∧
  is_info_plist_native (VDict (info b)) = Ok true ∧
  b = {| cls := c; path := p; info_path := PosixPath.join p "Info.plist";
         info := info b; orig_info := None; seal_path := None;
         new_appid := Some appid;
         entitlements_path := Some (PosixPath.join p "Entitlements.plist");
         provision_path := Some (PosixPath.join p "embedded.mobileprovision");
         new_provision := None; new_provision_path := None |} ∧
  info_props_changed b = false.
Proof.
  unfold App_init, Bundle_init, readPlist. run.
  destruct (fs s !! PosixPath.join p "Info.plist") as [[data|]|] eqn:Hfs;
    simpl; rewrite ?Hfs; simpl; try done.
  destruct (readPlistFromString data) as [plist|] eqn:Hdec; simpl; [|done].
  destruct (is_info_plist_native plist) as [[]|e] eqn:Hnat; simpl; try done.
  destruct (is_info_plist_native_dict _ Hnat) as [d ->]. simpl.
  intros [= <- <-]. simpl. split_and!; try done.
  by exists data.
Qed.

Lemma App_init_object_witness :
  App_init (platform := Demo.demo) ClsApp "/A.app" None (Demo.boot Demo.disk)
  = (Ok Demo.app_object, Demo.boot Demo.disk)
  ∧ is_info_plist_native (VDict (info Demo.app_object)) = Ok true.
Proof.
  assert (App_init (platform := Demo.demo) ClsApp "/A.app" None
            (Demo.boot Demo.disk)
          = (Ok Demo.app_object, Demo.boot Demo.disk)) as Hinit
    by (vm_compute; reflexivity).
  split; [exact Hinit|].
  exact (proj1 (proj2 (proj2 (App_init_object (platform := Demo.demo)
                                _ _ _ _ _ _ Hinit)))).
Defined.

(** ** Reading properties back *)

(** The special rule for URL schemes touches nothing but the entry
    [CFBundleURLTypes] of the metadata. *)
Lemma update_url_types_frame (new_props : gmap string value) (s : state)
    (r : result bool) (s1 : state) :
  update_url_types new_props s = (r, s1) →
  fs s1 = fs s ∧ log s1 = log s ∧
  orig_info (self s1) = orig_info (self s) ∧
  info_path (self s1) = info_path (self s) ∧
  ∀ k, k ≠ "CFBundleURLTypes" → info (self s1) !! k = info (self s) !! k.
Proof.
  unfold update_url_types, get_info_prop. run.
  destruct (new_props !! "CFBundleIdentifier") as [new|];
    [|by intros [= <- <-]].
  destruct (info (self s) !! "CFBundleURLTypes") as [url_types|];
    [|by intros [= <- <-]].
  destruct (new_props !! "CFBundleURLTypes"); [by intros [= <- <-]|].
  destruct (info (self s) !! "CFBundleIdentifier") as [old|]; simpl;
    [|by intros [= <- <-]].
  destruct (Dyn.iter url_types) as [entries|e] eqn:Hiter; simpl;
    [|by intros [= <- <-]].
  destruct (rewrite_url_names old new entries) as [[entries' c] e].
  destruct url_types; simpl; destruct e; simpl; intros [= <- <-]; simpl;
    split_and!; try done.
  all: intros k Hk; by rewrite lookup_insert_ne.
Qed.

Lemma writePlist_self {platform : Platform} (root : value) (p : string)
    (binary : bool) (s : state) :
  self (writePlist root p binary s).2 = self s.
Proof.
  unfold writePlist, write_file. run.
  by destruct (fs s !! p) as [[?|]|].
Qed.

(** The metadata an update that returns normally leaves behind: the
    requested mapping laid over what the special rule left. *)
Lemma update_info_props_info {platform : Platform}
    (new_props : gmap string value) (s : state) :
  (update_info_props new_props s).1 = Ok tt →
  ∃ s1 c, update_url_types new_props
            {| self := set_orig_info (Some (baseline (self s))) (self s);
               fs := fs s; log := log s |} = (Ok c, s1) ∧
          info (self (update_info_props new_props s).2)
          = new_props ∪ info (self s1).
Proof.
  unfold update_info_props, baseline. destruct s as [b store events]. run.
  assert (set_orig_info (Some (match orig_info b with
                               | Some orig => orig
                               | None => info b
                               end)) b
          = match orig_info b with
            | Some _ => b
            | None => set_orig_info (Some (info b)) b
            end) as Hbase.
  { destruct b as [? ? ? ? [orig|] ? ? ? ? ? ?]; done. }
  rewrite Hbase. clear Hbase.
  destruct (orig_info b) as [orig|]; simpl;
    (destruct (update_url_types new_props _) as [[c|e] s1]; [|done]);
    pose proof (apply_props_spec new_props (info (self s1)) c) as [Hinfo _];
    destruct (apply_props new_props (info (self s1), c)) as [info' changed];
    simpl in *; subst info'; intros _; exists s1, c; (split; [done|]);
    (destruct changed; [by rewrite writePlist_self | done]).
Qed.

(** After an update that returns normally, [get_info_prop] gives every
    requested key its requested value, and every other key except the URL
    scheme list what it had before: the value, or the key error. *)
Theorem update_then_get_info_prop {platform : Platform}
    (new_props : gmap string value) (s : state) :
  (update_info_props new_props s).1 = Ok tt →
  (∀ k v, new_props !! k = Some v →
          get_info_prop (self (update_info_props new_props s).2) k = Ok v) ∧
  (∀ k, new_props !! k = None → k ≠ "CFBundleURLTypes" →
        get_info_prop (self (update_info_props new_props s).2) k
        = get_info_prop (self s) k).
Proof.
  intros Hok. destruct (update_info_props_info new_props s Hok)
    as (s1 & c & Hurl & Hinfo).
  apply update_url_types_frame in Hurl as (_ & _ & _ & _ & Hframe).
  simpl in Hframe. unfold get_info_prop. rewrite Hinfo. split.
  - intros k v Hk. by rewrite (lookup_union_Some_l _ _ _ _ Hk).
  - intros k Hk Hne. rewrite lookup_union_r by done. by rewrite Hframe.
Qed.

Lemma update_then_get_info_prop_witness :
  get_info_prop
    (self (update_info_props (platform := Demo.demo) {[ "K" := VStr "v1" ]}
             Demo.store_K).2) "K" = Ok (VStr "v1")
  ∧ get_info_prop
      (self (update_info_props (platform := Demo.demo) {[ "K" := VStr "v1" ]}
               Demo.store_K).2) "absent"
    = Raise (KeyError "absent").
Proof.
  destruct (update_then_get_info_prop (platform := Demo.demo)
              {[ "K" := VStr "v1" ]} Demo.store_K) as [Hget Hframe].
  - vm_compute. reflexivity.
  - split.
    + apply Hget. apply lookup_singleton_eq.
    + rewrite Hframe; [vm_compute; reflexivity | | discriminate].
      by rewrite lookup_singleton_ne.
Defined.

(** ** Updates that fail or repeat *)

(** When the request names an identifier, the store has URL schemes and
    no identifier of its own, the update raises the key error before
    anything is compared or written; yet the baseline it took on entry
    stays, so the store reports pending changes although nothing
    changed. *)
Theorem update_info_props_missing_identifier {platform : Platform}
    (new_props : gmap string value) (s : state) :
  orig_info (self s) = None →
  is_Some (new_props !! "CFBundleIdentifier") →
  is_Some (info (self s) !! "CFBundleURLTypes") →
  new_props !! "CFBundleURLTypes" = None →
  info (self s) !! "CFBundleIdentifier" = None →
  update_info_props new_props s
  = (Raise (KeyError "CFBundleIdentifier"),
     {| self := set_orig_info (Some (info (self s))) (self s);
        fs := fs s; log := log s |})
  ∧ info_props_changed (self (update_info_props new_props s).2) = true
  ∧ info (self (update_info_props new_props s).2) = info (self s).
Proof.
  intros Horig [new Hnew] [url_types Hurl] Hnourl Hnoid.
  assert (update_info_props new_props s
          = (Raise (KeyError "CFBundleIdentifier"),
             {| self := set_orig_info (Some (info (self s))) (self s);
                fs := fs s; log := log s |})) as Hrun.
  { unfold update_info_props, update_url_types, get_info_prop. run.
    rewrite Horig. simpl. rewrite Hnew, Hurl, Hnourl. simpl.
    by rewrite Hnoid. }
  rewrite Hrun. done.
Qed.

Lemma update_info_props_missing_identifier_witness :
  (update_info_props (platform := Demo.demo)
     {[ "CFBundleIdentifier" := VStr "com.acme.App" ]}
     (Demo.on_disk (set_info {[ "CFBundleURLTypes" := VList [] ]}
                      Demo.app_object))).1
  = Raise (KeyError "CFBundleIdentifier")
  ∧ info_props_changed
      (self (update_info_props (platform := Demo.demo)
               {[ "CFBundleIdentifier" := VStr "com.acme.App" ]}
               (Demo.on_disk (set_info {[ "CFBundleURLTypes" := VList [] ]}
                                Demo.app_object))).2) = true.
Proof.
  destruct (update_info_props_missing_identifier (platform := Demo.demo)
              {[ "CFBundleIdentifier" := VStr "com.acme.App" ]}
              (Demo.on_disk (set_info {[ "CFBundleURLTypes" := VList [] ]}
                               Demo.app_object)))
    as (Hrun & Hchanged & _).
  - reflexivity.
  - rewrite lookup_singleton_eq. by eexists.
  - simpl. rewrite lookup_singleton_eq. by eexists.
  - by rewrite lookup_singleton_ne.
  - simpl. by rewrite lookup_singleton_ne.
  - split; [by rewrite Hrun | exact Hchanged].
Defined.

Lemma url_rule_skipped_union (new_props cur : gmap string value) :
  url_rule_skipped new_props cur → url_rule_skipped new_props (new_props ∪ cur).
Proof.
  intros [Hid | [Hcur | Hnew]].
  - by left.
  - destruct (new_props !! "CFBundleURLTypes") as [v|] eqn:Hnew.
    + right. right. by eexists.
    + right. left. by rewrite lookup_union_r.
  - by right; right.
Qed.

(** Away from the special rule for URL schemes, repeating an update is
    idle and forgetful: the second call writes nothing and leaves the
    metadata alone, and it drops the baseline, so that afterwards the
    store reports no change at all, whatever the first call changed. *)
Theorem update_info_props_repeated {platform : Platform}
    (new_props : gmap string value) (s : state) :
  url_rule_skipped new_props (info (self s)) →
  fs s !! info_path (self s) ≠ Some Dir →
  (update_info_props new_props s).1 = Ok tt ∧
  update_info_props new_props (update_info_props new_props s).2
  = (Ok tt, discarded (update_info_props new_props s).2) ∧
  info (self (update_info_props new_props s).2) = new_props ∪ info (self s).
Proof.
  intros Hskip Hfile.
  destruct (decide (new_props ⊆ info (self s))) as [Hsub|Hdiff].
  - rewrite (update_info_props_plain_unchanged _ _ Hskip Hsub). simpl.
    split_and!; [done| |by rewrite (map_subseteq_union _ _ Hsub)].
    by apply update_info_props_plain_unchanged.
  - rewrite (update_info_props_plain_changed _ _ Hskip Hdiff Hfile). simpl.
    split_and!; [done| |done].
    apply update_info_props_plain_unchanged; simpl.
    + by apply url_rule_skipped_union.
    + apply map_union_subseteq_l.
Qed.

Lemma update_info_props_repeated_witness :
  info_props_changed
    (self (update_info_props (platform := Demo.demo) {[ "K" := VStr "v1" ]}
             Demo.store_K).2) = true
  ∧ info_props_changed
      (self (update_info_props (platform := Demo.demo) {[ "K" := VStr "v1" ]}
               (update_info_props (platform := Demo.demo) {[ "K" := VStr "v1" ]}
                  Demo.store_K).2).2) = false.
Proof.
  destruct (update_info_props_repeated (platform := Demo.demo)
              {[ "K" := VStr "v1" ]} Demo.store_K) as (_ & Hsecond & _).
  - left. by rewrite lookup_singleton_ne.
  - vm_compute. discriminate.
  - split; [vm_compute; reflexivity|]. by rewrite Hsecond.
Defined.

(** ** [App.resign] gives up before it changes anything *)

(** A profile without one of the two markers fails the assertion of
    [load_provision_data] and leaves the state as it was. *)
Lemma load_provision_data_unmarked {platform : Platform}
    (src data : string) (s : state) :
  fs s !! src = Some (File data) →
  absent "<?xml version=" data ∨ absent "</plist>" data →
  App_load_provision_data src s = (Raise AssertionError, s).
Proof.
  intros Hfs Habs. unfold App_load_provision_data. run. rewrite Hfs.
  assert (Py.find "<?xml version=" data = -1 ∨ Py.find "</plist>" data = -1)
    as Hfind by (destruct Habs; [left|right]; by apply find_absent).
  destruct Hfind as [-> | ->]; simpl.
  - done.
  - by rewrite andb_false_r.
Qed.

(** When the provisioning file is there but lacks one of the two markers,
    [resign] raises the assertion error with the object, the file store
    and the log as they were, for an application and for an extension,
    and whatever the recursion bound. *)
Theorem App_resign_malformed_profile {platform : Platform} (depth : nat)
    (src data : string) (s : state) :
  fs s !! src = Some (File data) →
  absent "<?xml version=" data ∨ absent "</plist>" data →
  App_resign depth src s = (Raise AssertionError, s).
Proof.
  intros Hfs Habs.
  pose proof (load_provision_data_unmarked src data s Hfs Habs) as Hfail.
  unfold App_resign, App_resign_with, load_provision_data,
    AppEx_load_provision_data. run.
  destruct (cls (self s)); simpl; rewrite ?Hfs; simpl; by rewrite Hfail.
Qed.

Lemma App_resign_malformed_profile_witness :
  App_resign (platform := Demo.demo) 3 "/A.app/A" (Demo.on_disk Demo.app_object)
  = (Raise AssertionError, Demo.on_disk Demo.app_object).
Proof.
  apply (App_resign_malformed_profile (platform := Demo.demo) 3 "/A.app/A" "macho").
  - vm_compute. reflexivity.
  - left. apply find_absent. vm_compute. reflexivity.
Defined.

(** For an application proper a missing provisioning file is as fatal and
    as harmless: the I/O error, and nothing changed. *)
Theorem App_resign_missing_profile {platform : Platform} (depth : nat)
    (src : string) (s : state) :
  cls (self s) ≠ ClsAppEx →
  fs s !! src = None →
  App_resign depth src s = (Raise (IOError src), s).
Proof.
  intros Hcls Hfs.
  unfold App_resign, App_resign_with, load_provision_data,
    App_load_provision_data. run.
  destruct (cls (self s)); try done; simpl; by rewrite Hfs.
Qed.

Lemma App_resign_missing_profile_witness :
  App_resign (platform := Demo.demo) 3 "/nowhere" (Demo.on_disk Demo.app_object)
  = (Raise (IOError "/nowhere"), Demo.on_disk Demo.app_object).
Proof.
  apply (App_resign_missing_profile (platform := Demo.demo)).
  - discriminate.
  - vm_compute. reflexivity.
Defined.

(** ** What signing never does *)

(** From [s] to [s'] the log has only grown, no path of the file store
    has gone, and the object is still of the same class at the same
    place. *)
Definition keeps (s s' : state) : Prop :=
  (∃ t, log s' = (log s ++ t)%list) ∧
  (∀ p, is_Some (fs s !! p) → is_Some (fs s' !! p)) ∧
  path (self s') = path (self s) ∧
  cls (self s') = cls (self s).

Lemma keeps_refl (s : state) : keeps s s.
Proof. split_and!; [exists []; by rewrite app_nil_r | done..]. Qed.

Lemma keeps_trans (s1 s2 s3 : state) : keeps s1 s2 → keeps s2 s3 → keeps s1 s3.
Proof.
  intros ([t1 H1] & F1 & P1 & C1) ([t2 H2] & F2 & P2 & C2). split_and!.
  - exists (t1 ++ t2)%list. by rewrite H2, H1, <- app_assoc.
  - intros p Hp. by apply F2, F1.
  - congruence.
  - congruence.
Qed.

(** A computation is steady when every run of it [keeps] the state. *)
Definition steady {A} (m : M A) : Prop :=
  ∀ s r s', m s = (r, s') → keeps s s'.

Lemma steady_ret {A} (a : A) : steady (ret a).
Proof. intros s r s' [= <- <-]. apply keeps_refl. Qed.

Lemma steady_raise {A} (e : exn) : steady (raise (A := A) e).
Proof. intros s r s' [= <- <-]. apply keeps_refl. Qed.

Lemma steady_lift {A} (x : result A) : steady (lift x).
Proof. intros s r s' [= <- <-]. apply keeps_refl. Qed.

Lemma steady_bind {A B} (m : M A) (k : A → M B) :
  steady m → (∀ a, steady (k a)) → steady (bind m k).
Proof.
  intros Hm Hk s r s'. unfold bind.
  destruct (m s) as [[a|e] s1] eqn:Hrun.
  - intros Hrest. eapply keeps_trans; [by eapply Hm | by eapply Hk].
  - intros [= <- <-]. by eapply Hm.
Qed.

Lemma steady_get_self : steady get_self.
Proof. intros s r s' [= <- <-]. apply keeps_refl. Qed.

Lemma steady_get_fs : steady get_fs.
Proof. intros s r s' [= <- <-]. apply keeps_refl. Qed.

Lemma steady_modify_self (f : bundle → bundle) :
  (∀ b, path (f b) = path b ∧ cls (f b) = cls b) →
  steady (modify_self f).
Proof.
  intros Hf s r s' [= <- <-]. destruct (Hf (self s)) as [Hpath Hcls].
  split_and!; [exists []; simpl; by rewrite app_nil_r | done..].
Qed.

Lemma steady_emit (e : event) : steady (emit e).
Proof. intros s r s' [= <- <-]. split_and!; [by exists [e] | done..]. Qed.

Lemma steady_getattr {A} (name : string) (field : bundle → option A) :
  steady (getattr name field).
Proof.
  intros s r s'. unfold getattr.
  destruct (field (self s)); intros [= <- <-]; apply keeps_refl.
Qed.

Lemma steady_exists (p : string) : steady (exists_ p).
Proof. intros s r s' [= <- <-]. apply keeps_refl. Qed.

Lemma steady_read_file (p : string) : steady (read_file p).
Proof.
  intros s r s'. unfold read_file.
  destruct (fs s !! p) as [[?|]|]; intros [= <- <-]; apply keeps_refl.
Qed.

Lemma steady_write_file (p data : string) : steady (write_file p data).
Proof.
  intros s r s'. unfold write_file.
  destruct (fs s !! p) as [[?|]|] eqn:Hp; intros [= <- <-];
    try apply keeps_refl.
  all: split_and!; [exists []; simpl; by rewrite app_nil_r| |done..];
    simpl; intros q Hq; rewrite lookup_insert; by case_decide.
Qed.

Lemma steady_except_NotMatched (m : M unit) :
  steady m → steady (except_NotMatched m).
Proof.
  intros Hm s r s'. unfold except_NotMatched.
  destruct (m s) as [[[]|e] s1] eqn:Hrun.
  - intros [= <- <-]. by eapply Hm.
  - destruct e; intros [= <- <-]; by eapply Hm.
Qed.

Lemma steady_on {A} (b : bundle) (m : M A) : steady m → steady (on b m).
Proof.
  intros Hm s r s'. unfold on.
  destruct (m _) as [r1 s1] eqn:Hrun. intros [= <- <-].
  apply Hm in Hrun as (Hlog & Hfs & _ & _). by split_and!.
Qed.

Lemma steady_for_each {A} (l : list A) (body : A → M unit) :
  (∀ x, steady (body x)) → steady (for_each l body).
Proof.
  intros Hbody. induction l as [|x l IH]; simpl.
  - apply steady_ret.
  - apply steady_bind; [apply Hbody | by intros _].
Qed.

Create HintDb steady discriminated.
#[local] Hint Extern 1 (steady (modify_self _)) =>
  apply steady_modify_self; by intros [] : steady.
#[local] Hint Resolve steady_ret steady_raise steady_lift steady_get_self
  steady_get_fs steady_emit steady_getattr steady_exists
  steady_read_file steady_write_file steady_except_NotMatched steady_on
  steady_for_each : steady.

(** Take a computation apart along its binds and case distinctions. *)
Ltac steady :=
  repeat first
    [ progress eauto with steady
    | apply steady_bind; [|intros ?]
    | apply steady_for_each; intros ?
    | apply steady_except_NotMatched
    | apply steady_on
    | match goal with
      | |- steady (if ?b then _ else _) => destruct b
      | |- steady (match ?x with _ => _ end) => destruct x
      | |- steady (let '(_, _) := ?x in _) => destruct x
      end ].

Section Steady.
Context {platform : Platform}.

Lemma steady_copyfile (src dst : string) : steady (copyfile src dst).
Proof. unfold copyfile. steady. Qed.

Lemma steady_readPlist (p : string) : steady (readPlist p).
Proof. unfold readPlist. steady. Qed.

Lemma steady_writePlist (root : value) (p : string) (binary : bool) :
  steady (writePlist root p binary).
Proof. unfold writePlist. steady. Qed.

Lemma steady_os_listdir (p : string) : steady (os_listdir p).
Proof.
  intros s r s'. unfold os_listdir.
  destruct (listdir (fs s) p); intros [= <- <-]; apply keeps_refl.
Qed.

Lemma steady_glob_glob (pattern : string) : steady (glob_glob pattern).
Proof. intros s r s' [= <- <-]. apply keeps_refl. Qed.

#[local] Hint Resolve steady_copyfile steady_readPlist steady_writePlist
  steady_os_listdir steady_glob_glob : steady.

Lemma steady_Bundle_init (c : bundle_class) (p : string) :
  steady (Bundle_init c p).
Proof. unfold Bundle_init. steady. Qed.

#[local] Hint Resolve steady_Bundle_init : steady.

Lemma steady_App_init (c : bundle_class) (p : string) (appid : option value) :
  steady (App_init c p appid).
Proof. unfold App_init. steady. Qed.

Lemma steady_get_executable_path : steady get_executable_path.
Proof. unfold get_executable_path. steady. Qed.

Lemma steady_sign_binary (target : signable) (file : string) :
  steady (sign_binary target file).
Proof. unfold sign_binary. steady. Qed.

#[local] Hint Resolve steady_App_init steady_get_executable_path steady_sign_binary
  : steady.

Lemma steady_sign_dylibs (dir : string) : steady (sign_dylibs dir).
Proof. unfold sign_dylibs. steady. Qed.

Lemma steady_build_seal : steady build_seal.
Proof. unfold build_seal. steady. Qed.

Lemma steady_change_bundle_id : steady change_bundle_id.
Proof. unfold change_bundle_id. steady. Qed.

Lemma steady_load_provision_data (src : string) :
  steady (load_provision_data src).
Proof.
  unfold load_provision_data, AppEx_load_provision_data,
    App_load_provision_data. steady.
Qed.

Lemma steady_copy_provision (src : string) : steady (copy_provision src).
Proof.
  unfold copy_provision, AppEx_copy_provision, App_copy_provision. steady.
Qed.

Lemma steady_create_entitlements : steady create_entitlements.
Proof.
  unfold create_entitlements, AppEx_create_entitlements,
    App_create_entitlements. steady.
Qed.

#[local] Hint Resolve steady_sign_dylibs steady_build_seal steady_change_bundle_id
  steady_load_provision_data steady_copy_provision steady_create_entitlements
  : steady.

Lemma steady_App_resign_with (sign_child : M unit) (src : string) :
  steady sign_child → steady (App_resign_with sign_child src).
Proof. intros Hchild. unfold App_resign_with. steady. Qed.

Lemma steady_sign_with (sign_child : M unit) :
  steady sign_child → steady (sign_with sign_child).
Proof.
  intros Hchild. pose proof (steady_App_resign_with sign_child) as Hresign.
  unfold sign_with, sign_frameworks, sign_plugins. steady.
Qed.

Lemma steady_sign (depth : nat) : steady (sign depth).
Proof.
  induction depth as [|depth IH]; simpl.
  - apply steady_raise.
  - by apply steady_sign_with.
Qed.

End Steady.

#[local] Hint Resolve steady_copyfile steady_readPlist steady_writePlist
  steady_os_listdir steady_glob_glob steady_Bundle_init steady_App_init
  steady_get_executable_path steady_sign_binary steady_sign_dylibs
  steady_build_seal steady_change_bundle_id steady_load_provision_data
  steady_copy_provision steady_create_entitlements steady_App_resign_with
  steady_sign_with steady_sign : steady.

(** Neither [App.resign] nor [Bundle.resign] ever removes a path from the
    file store, whether they return or raise: what exists before a run
    exists after it.  (What the seal builder and the signature generator
    do to the files they are handed is outside this model.) *)
Theorem resign_keeps_files {platform : Platform} (depth : nat) (src : string)
    (s : state) (p : string) :
  is_Some (fs s !! p) →
  is_Some (fs (App_resign depth src s).2 !! p) ∧
  is_Some (fs (Bundle_resign depth s).2 !! p).
Proof.
  intros Hp. split.
  - destruct (App_resign depth src s) as [r s'] eqn:Hrun.
    eapply (steady_App_resign_with _ src (steady_sign depth)) in Hrun
      as (_ & Hkeep & _).
    by apply Hkeep.
  - destruct (Bundle_resign depth s) as [r s'] eqn:Hrun.
    apply steady_sign in Hrun as (_ & Hkeep & _). by apply Hkeep.
Qed.

Lemma resign_keeps_files_witness :
  is_Some (fs (App_resign (platform := Demo.demo) 3 "/p.mobileprovision"
                 (Demo.on_disk Demo.app_object)).2 !! "/A.app/Info.plist").
Proof.
  refine (proj1 (resign_keeps_files (platform := Demo.demo) 3
                   "/p.mobileprovision" (Demo.on_disk Demo.app_object)
                   "/A.app/Info.plist" _)).
  eexists. vm_compute. reflexivity.
Defined.

(** ** Frameworks and [NotMatched] *)

(** A computation is calm when, run on an object without the [new_appid]
    attribute, it leaves the file store alone, leaves the object without
    that attribute, and does not raise [NotMatched]. *)
Definition calm {A} (m : M A) : Prop :=
  ∀ s r s', new_appid (self s) = None → m s = (r, s') →
            fs s' = fs s ∧ new_appid (self s') = None ∧ r ≠ Raise NotMatched.

Lemma calm_ret {A} (a : A) : calm (ret a).
Proof. by intros s r s' Hattr [= <- <-]. Qed.

Lemma calm_raise {A} (e : exn) : e ≠ NotMatched → calm (raise (A := A) e).
Proof. intros He s r s' Hattr [= <- <-]. split_and!; congruence. Qed.

Lemma calm_bind {A B} (m : M A) (k : A → M B) :
  calm m → (∀ a, calm (k a)) → calm (bind m k).
Proof.
  intros Hm Hk s r s' Hattr. unfold bind.
  destruct (m s) as [[a|e] s1] eqn:Hrun.
  - intros Hrest. destruct (Hm _ _ _ Hattr Hrun) as (Hfs & Hattr1 & _).
    destruct (Hk a _ _ _ Hattr1 Hrest) as (Hfs' & ? & ?).
    split_and!; [congruence|done|done].
  - intros [= <- <-]. destruct (Hm _ _ _ Hattr Hrun) as (Hfs & Hattr1 & Hr).
    split_and!; [done|done|]. intros [= ->]. by apply Hr.
Qed.

Lemma calm_get_self : calm get_self.
Proof. by intros s r s' Hattr [= <- <-]. Qed.

Lemma calm_get_fs : calm get_fs.
Proof. by intros s r s' Hattr [= <- <-]. Qed.

Lemma calm_emit (e : event) : calm (emit e).
Proof. by intros s r s' Hattr [= <- <-]. Qed.

Lemma calm_exists (p : string) : calm (exists_ p).
Proof. by intros s r s' Hattr [= <- <-]. Qed.

Lemma calm_set_seal_path (p : option string) :
  calm (modify_self (set_seal_path p)).
Proof. by intros s r s' Hattr [= <- <-]. Qed.

Lemma calm_for_each {A} (l : list A) (body : A → M unit) :
  (∀ x, calm (body x)) → calm (for_each l body).
Proof.
  intros Hbody. induction l as [|x l IH]; simpl.
  - apply calm_ret.
  - apply calm_bind; [apply Hbody | by intros _].
Qed.

#[local] Hint Resolve calm_ret calm_get_self calm_get_fs calm_emit calm_exists
  calm_set_seal_path : steady.

Ltac calm :=
  repeat first
    [ progress eauto with steady
    | apply calm_raise; discriminate
    | apply calm_bind; [|intros ?]
    | apply calm_for_each; intros ?
    | match goal with
      | |- calm (if ?b then _ else _) => destruct b
      | |- calm (match ?x with _ => _ end) => destruct x
      end ].

Section Calm.
Context {platform : Platform}.

Lemma calm_os_listdir (p : string) : calm (os_listdir p).
Proof.
  intros s r s' Hattr. unfold os_listdir.
  destruct (listdir (fs s) p); by intros [= <- <-].
Qed.

Lemma calm_glob_glob (pattern : string) : calm (glob_glob pattern).
Proof. by intros s r s' Hattr [= <- <-]. Qed.

#[local] Hint Resolve calm_os_listdir calm_glob_glob : steady.

Lemma calm_get_executable_path : calm get_executable_path.
Proof. unfold get_executable_path. calm. Qed.

Lemma calm_sign_binary (target : signable) (file : string) :
  calm (sign_binary target file).
Proof. unfold sign_binary. calm. Qed.

#[local] Hint Resolve calm_get_executable_path calm_sign_binary : steady.

Lemma calm_sign_dylibs (dir : string) : calm (sign_dylibs dir).
Proof. unfold sign_dylibs. calm. Qed.

Lemma calm_build_seal : calm build_seal.
Proof. unfold build_seal. calm. Qed.

Lemma calm_sign_plugins (sign_child : M unit) (plugins_path : string) :
  calm (sign_plugins sign_child plugins_path).
Proof.
  intros s r s' Hattr. unfold sign_plugins, glob_glob. run.
  induction (glob (fs s) (PosixPath.join plugins_path "*.appex"))
    as [|appex_path rest IH]; simpl; [by intros [= <- <-]|].
  run. destruct (bool_decide (is_Some _)); simpl.
  - rewrite Hattr. by intros [= <- <-].
  - apply IH.
Qed.

(** Building a bundle object reads the file store and changes nothing. *)
Lemma Bundle_init_state (c : bundle_class) (p : string) (s : state) :
  (Bundle_init c p s).2 = s.
Proof.
  unfold Bundle_init, readPlist. run.
  destruct (fs s !! PosixPath.join p "Info.plist") as [[data|]|] eqn:Hfs;
    simpl; rewrite ?Hfs; simpl; try done.
  destruct (readPlistFromString data) as [plist|]; simpl; [|done].
  destruct (is_info_plist_native plist) as [[]|e]; simpl; try done.
  by destruct plist.
Qed.

(** What [Framework(path)] builds has no [new_appid]. *)
Lemma Bundle_init_ok (c : bundle_class) (p : string) (s : state)
    (b : bundle) (s' : state) :
  Bundle_init c p s = (Ok b, s') →
  s' = s ∧ new_appid b = None ∧ path b = p ∧ cls b = c.
Proof.
  intros Hrun. pose proof (Bundle_init_state c p s) as Hsame.
  rewrite Hrun in Hsame. simpl in Hsame. subst s'. split; [done|].
  revert Hrun. unfold Bundle_init, readPlist. run.
  destruct (fs s !! PosixPath.join p "Info.plist") as [[data|]|] eqn:Hfs;
    simpl; rewrite ?Hfs; simpl; try done.
  destruct (readPlistFromString data) as [plist|]; simpl; [|done].
  destruct (is_info_plist_native plist) as [[]|e]; simpl; try done.
  destruct plist; simpl; try done. by intros [= <-].
Qed.

(** What [AppEx(path, new_appid)] builds lies at [path], and building it
    changes nothing. *)
Lemma App_init_ok (c : bundle_class) (p : string) (appid : option value)
    (s : state) (b : bundle) (s' : state) :
  App_init c p appid s = (Ok b, s') → s' = s ∧ path b = p ∧ cls b = c.
Proof.
  unfold App_init, bind.
  destruct (Bundle_init c p s) as [[b0|e] s1] eqn:Hinit; [|done].
  apply Bundle_init_ok in Hinit as (-> & _ & <- & <-).
  unfold ret. by intros [= <- <-].
Qed.

(** The body of the loop over [Frameworks]. *)
Lemma calm_framework_entry (sign_child : M unit) (framework_path : string) :
  calm sign_child →
  calm (except_NotMatched
          (framework <- Bundle_init ClsFramework framework_path ;;
           on framework sign_child)).
Proof.
  intros Hchild s r s' Hattr. unfold except_NotMatched, bind, on.
  destruct (Bundle_init ClsFramework framework_path s) as [[b|e] s1] eqn:Hinit.
  - apply Bundle_init_ok in Hinit as (-> & Hb & _ & _).
    destruct (sign_child _) as [r1 s2] eqn:Hrun.
    apply Hchild in Hrun as (Hfs & _ & Hr); [|done]. simpl in *.
    destruct r1 as [[]|e]; [by intros [= <- <-]|].
    destruct e; intros [= <- <-]; done.
  - pose proof (Bundle_init_state ClsFramework framework_path s) as Hsame.
    rewrite Hinit in Hsame. simpl in Hsame. subst s1.
    destruct e; intros [= <- <-]; done.
Qed.

Lemma calm_sign_with (sign_child : M unit) :
  calm sign_child → calm (sign_with sign_child).
Proof.
  intros Hchild.
  pose proof (calm_framework_entry sign_child) as Hentry.
  pose proof (calm_sign_plugins sign_child) as Hplugins.
  pose proof calm_sign_dylibs. pose proof calm_build_seal.
  unfold sign_with, sign_frameworks. calm.
Qed.

Lemma calm_sign (depth : nat) : calm (sign depth).
Proof.
  induction depth as [|depth IH]; simpl.
  - by apply calm_raise.
  - by apply calm_sign_with.
Qed.

End Calm.



(** ** The seal and the signature come last *)

Lemma bind_Ok_inv {A B} (m : M A) (k : A → M B) (s : state) (b : B)
    (s' : state) :
  bind m k s = (Ok b, s') →
  ∃ a s1, m s = (Ok a, s1) ∧ k a s1 = (Ok b, s').
Proof.
  unfold bind. destruct (m s) as [[a|e] s1]; [|done].
  intros Hk. by exists a, s1.
Qed.

(** The run from [s] to [s'] ends with the seal of the bundle followed by
    the signature of its main executable, made once the seal is set. *)
Definition sealed_then_signed (s s' : state) : Prop :=
  ∃ pre executable owner,
    log s' = (log s ++ pre ++
              [MakeSeal executable (path (self s));
               Sign (signable_class (cls (self s))) owner executable])%list ∧
    path owner = path (self s) ∧
    is_Some (seal_path owner).

(** The executable path is a function of the metadata, the bundle path
    and the file store. *)
Lemma get_executable_path_inv (s : state) (r : result string) (s' : state) :
  get_executable_path s = (r, s') →
  s' = s ∧
  ∀ s2, info (self s2) = info (self s) → path (self s2) = path (self s) →
        fs s2 = fs s → get_executable_path s2 = (r, s2).
Proof.
  unfold get_executable_path. run. intros Hrun.
  assert (s' = s) as ->.
  { revert Hrun. destruct (info (self s) !! "CFBundleExecutable") as [[]|];
      simpl; try (by intros [= <- <-]);
      destruct (bool_decide _); simpl; by intros [= <- <-]. }
  split; [done|]. intros s2 Hinfo Hpath Hfs. rewrite Hinfo, Hpath.
  revert Hrun.
  destruct (info (self s) !! "CFBundleExecutable") as [[]|];
    simpl; rewrite ?Hfs; try (by intros [= <-]);
    destruct (bool_decide _); simpl; by intros [= <-].
Qed.

Section Order.
Context {platform : Platform}.

Lemma build_seal_inv (s s' : state) :
  build_seal s = (Ok tt, s') →
  ∃ executable seal,
    get_executable_path s = (Ok executable, s) ∧
    s' = {| self := set_seal_path (Some seal) (self s); fs := fs s;
            log := log s ++ [MakeSeal executable (path (self s))] |}.
Proof.
  unfold build_seal. intros Hrun.
  apply bind_Ok_inv in Hrun as (b & s1 & [= <- <-] & Hrun).
  apply bind_Ok_inv in Hrun as (executable & s1 & Hexe & Hrun).
  pose proof (get_executable_path_inv _ _ _ Hexe) as [-> _].
  apply bind_Ok_inv in Hrun as (store & s1 & [= <- <-] & Hrun).
  destruct (make_seal (fs s) executable (path (self s))) as [seal|]; [|done].
  exists executable, seal. split; [done|].
  revert Hrun. run. by intros [= <-].
Qed.

Lemma sign_binary_inv (target : signable) (file : string) (s s' : state) :
  sign_binary target file s = (Ok tt, s') →
  s' = {| self := self s; fs := fs s;
          log := log s ++ [Sign target (self s) file] |}.
Proof.
  unfold sign_binary. run.
  destruct (signable_sign target (self s) file (fs s)); [|done].
  by intros [= <-].
Qed.

Lemma steady_sign_frameworks (sign_child : M unit) (frameworks_path : string) :
  steady sign_child → steady (sign_frameworks sign_child frameworks_path).
Proof.
  intros Hchild. pose proof steady_sign_dylibs.
  unfold sign_frameworks. steady.
Qed.

Lemma steady_sign_plugins (sign_child : M unit) (plugins_path : string) :
  steady sign_child → steady (sign_plugins sign_child plugins_path).
Proof.
  intros Hchild. pose proof (steady_App_resign_with sign_child) as Hresign.
  pose proof steady_App_init.
  unfold sign_plugins. steady.
Qed.

(** The three scans of [Bundle.sign], before the seal is built. *)
Definition sign_children (sign_child : M unit) (b : bundle) : M unit :=
  e <- exists_ (PosixPath.join (path b) "Frameworks") ;;
  (if e then sign_frameworks sign_child (PosixPath.join (path b) "Frameworks")
   else ret tt) ;;
  sign_dylibs (path b) ;;
  e <- exists_ (PosixPath.join (path b) "PlugIns") ;;
  (if e then sign_plugins sign_child (PosixPath.join (path b) "PlugIns")
   else ret tt).

Lemma steady_sign_children (sign_child : M unit) (b : bundle) :
  steady sign_child → steady (sign_children sign_child b).
Proof.
  intros Hchild.
  pose proof (steady_sign_frameworks sign_child).
  pose proof (steady_sign_plugins sign_child).
  pose proof steady_sign_dylibs.
  unfold sign_children. steady.
Qed.

(** [Bundle.sign] is the scans followed by the seal and the signature. *)
Lemma sign_with_children (sign_child : M unit) (s : state) :
  sign_with sign_child s
  = (sign_children sign_child (self s) ;;
     build_seal ;;
     executable <- get_executable_path ;;
     sign_binary (signable_class (cls (self s))) executable) s.
Proof.
  unfold sign_with, sign_children, bind, get_self, exists_.
  destruct (bool_decide (is_Some (fs s !! PosixPath.join (path (self s)) "Frameworks")));
    simpl.
  - destruct (sign_frameworks _ _ _) as [[[]|e] s1]; [|done].
    destruct (sign_dylibs _ s1) as [[[]|e] s2]; [|done].
    destruct (bool_decide _); simpl; [|done].
    by destruct (sign_plugins _ _ _) as [[[]|e] s3].
  - destruct (sign_dylibs _ s) as [[[]|e] s2]; [|done].
    destruct (bool_decide _); simpl; [|done].
    by destruct (sign_plugins _ _ _) as [[[]|e] s3].
Qed.

Lemma sign_with_inv (sign_child : M unit) (s s' : state) :
  steady sign_child →
  sign_with sign_child s = (Ok tt, s') →
  ∃ s1 executable seal,
    sign_children sign_child (self s) s = (Ok tt, s1) ∧
    keeps s s1 ∧
    s' = {| self := set_seal_path (Some seal) (self s1); fs := fs s1;
            log := log s1 ++
                   [MakeSeal executable (path (self s));
                    Sign (signable_class (cls (self s)))
                         (set_seal_path (Some seal) (self s1)) executable] |}.
Proof.
  intros Hchild. rewrite sign_with_children. intros Hrun.
  apply bind_Ok_inv in Hrun as ([] & s1 & Hkids & Hrun).
  pose proof (steady_sign_children _ _ Hchild _ _ _ Hkids) as Hkeeps.
  apply bind_Ok_inv in Hrun as ([] & s2 & Hseal & Hrun).
  apply build_seal_inv in Hseal as (executable & seal & Hexe & ->).
  apply bind_Ok_inv in Hrun as (executable' & s3 & Hexe' & Hrun).
  apply get_executable_path_inv in Hexe as [_ Hsame].
  rewrite Hsame in Hexe' by done.
  injection Hexe' as <- <-.
  apply sign_binary_inv in Hrun as ->. simpl.
  pose proof Hkeeps as (_ & _ & Hpath & _).
  exists s1, executable, seal. split_and!; [done|done|].
  rewrite Hpath. by rewrite <- app_assoc.
Qed.

Lemma sign_with_sealed (sign_child : M unit) (s s' : state) :
  steady sign_child →
  sign_with sign_child s = (Ok tt, s') →
  sealed_then_signed s s'.
Proof.
  intros Hchild Hrun.
  apply sign_with_inv in Hrun as (s1 & executable & seal & _ & Hkeeps & ->);
    [|done].
  destruct Hkeeps as ([pre Hlog] & _ & Hpath & _).
  exists pre, executable, (set_seal_path (Some seal) (self s1)). simpl.
  split_and!; [|done|by eexists].
  by rewrite Hlog, <- app_assoc.
Qed.

Lemma sign_sealed (depth : nat) (s s' : state) :
  sign depth s = (Ok tt, s') → sealed_then_signed s s'.
Proof.
  destruct depth as [|depth]; simpl; [done|].
  apply sign_with_sealed, steady_sign.
Qed.

Lemma App_resign_with_sealed (sign_child : M unit) (src : string)
    (s s' : state) :
  (∀ s s', sign_child s = (Ok tt, s') → sealed_then_signed s s') →
  App_resign_with sign_child src s = (Ok tt, s') →
  sealed_then_signed s s'.
Proof.
  intros Hsealed Hrun. unfold App_resign_with in Hrun.
  apply bind_Ok_inv in Hrun as ([] & s1 & H1 & Hrun).
  apply bind_Ok_inv in Hrun as ([] & s2 & H2 & Hrun).
  apply bind_Ok_inv in Hrun as ([] & s3 & H3 & Hrun).
  apply bind_Ok_inv in Hrun as ([] & s4 & H4 & Hrun).
  apply steady_load_provision_data in H1.
  apply steady_change_bundle_id in H2.
  apply steady_copy_provision in H3.
  apply steady_create_entitlements in H4.
  pose proof (keeps_trans _ _ _ (keeps_trans _ _ _ (keeps_trans _ _ _ H1 H2) H3) H4)
    as ([t Hlog] & _ & Hpath & Hcls).
  apply Hsealed in Hrun as (pre & executable & owner & Hlog' & Howner & Hseal).
  exists (t ++ pre)%list, executable, owner.
  rewrite Hlog', Hlog, Hpath, Hcls, <- !app_assoc. split_and!; [done| |done].
  congruence.
Qed.

End Order.



(** ** Everything nested is signed before the seal *)

(** The event [e] was logged between [s] and [s']. *)
Definition logged_since (s s' : state) (e : event) : Prop :=
  ∃ t, log s' = (log s ++ t)%list ∧ e ∈ t.

Lemma logged_since_before (s s1 s' : state) (e : event) :
  keeps s s1 → logged_since s1 s' e → logged_since s s' e.
Proof.
  intros ([t1 H1] & _) (t & Ht & He). exists (t1 ++ t)%list.
  split; [by rewrite Ht, H1, <- app_assoc|]. apply elem_of_app. by right.
Qed.

Lemma logged_since_after (s s1 s' : state) (e : event) :
  logged_since s s1 e → keeps s1 s' → logged_since s s' e.
Proof.
  intros (t & Ht & He) ([t1 H1] & _). exists (t ++ t1)%list.
  split; [by rewrite H1, Ht, <- app_assoc|]. apply elem_of_app. by left.
Qed.

Lemma sealed_logged (s s' : state) :
  sealed_then_signed s s' →
  ∃ owner file, path owner = path (self s) ∧
                logged_since s s' (Sign (signable_class (cls (self s))) owner file).
Proof.
  intros (pre & executable & owner & Hlog & Hpath & _).
  exists owner, executable. split; [done|]. eexists. split; [exact Hlog|].
  apply elem_of_app. right. apply elem_of_cons. right. apply list_elem_of_singleton.
  done.
Qed.

(** A loop that returns normally ran its body, normally, on every
    element; [R] is any preorder the body respects. *)
Lemma for_each_Ok_inv {A} (R : state → state → Prop) (l : list A)
    (body : A → M unit) (s s' : state) :
  (∀ s, R s s) → (∀ s1 s2 s3, R s1 s2 → R s2 s3 → R s1 s3) →
  (∀ x s r s', body x s = (r, s') → R s s') →
  for_each l body s = (Ok tt, s') →
  R s s' ∧
  ∀ x, x ∈ l → ∃ s1 s2, R s s1 ∧ body x s1 = (Ok tt, s2) ∧ R s2 s'.
Proof.
  intros Hrefl Htrans Hbody. revert s.
  induction l as [|y l IH]; intros s; simpl.
  - intros [= <-]. split; [done|]. intros x Hx. by apply elem_of_nil in Hx.
  - intros Hrun. apply bind_Ok_inv in Hrun as ([] & s1 & Hy & Hrest).
    pose proof (Hbody _ _ _ _ Hy) as Hstep.
    destruct (IH _ Hrest) as [Hall Heach]. split; [by eapply Htrans|].
    intros x Hx. apply elem_of_cons in Hx as [->|Hx].
    + exists s, s1. by split_and!.
    + destruct (Heach x Hx) as (s2 & s3 & H2 & Hrun2 & H3).
      exists s2, s3. split_and!; [by eapply Htrans|done|done].
Qed.

(** [keeps], and the file store is the same. *)
Definition settled (s s' : state) : Prop := keeps s s' ∧ fs s' = fs s.

Lemma settled_refl (s : state) : settled s s.
Proof. split; [apply keeps_refl | done]. Qed.

Lemma settled_trans (s1 s2 s3 : state) :
  settled s1 s2 → settled s2 s3 → settled s1 s3.
Proof.
  intros [K1 F1] [K2 F2]. split; [by eapply keeps_trans | congruence].
Qed.

Section Children.
Context {platform : Platform}.
Variable sign_child : M unit.
Hypothesis child_steady : steady sign_child.
Hypothesis child_calm : calm sign_child.
Hypothesis child_sealed :
  ∀ s s', sign_child s = (Ok tt, s') → sealed_then_signed s s'.

(** Classification reads the file store and nothing else. *)
Lemma Bundle_init_fs (c : bundle_class) (p : string) (s1 s2 : state) :
  fs s1 = fs s2 → (Bundle_init c p s1).1 = (Bundle_init c p s2).1.
Proof.
  destruct s1 as [b1 store l1], s2 as [b2 store2 l2]. simpl. intros <-.
  unfold Bundle_init, readPlist. run.
  destruct (store !! PosixPath.join p "Info.plist") as [[data|]|] eqn:Hfs;
    simpl; rewrite ?Hfs; simpl; try done.
  destruct (readPlistFromString data) as [plist|]; simpl; [|done].
  destruct (is_info_plist_native plist) as [[]|e]; simpl; try done.
  by destruct plist.
Qed.

Definition framework_entry (framework_path : string) : M unit :=
  except_NotMatched
    (framework <- Bundle_init ClsFramework framework_path ;;
     on framework sign_child).

Lemma framework_entry_settled (framework_path : string) (s : state)
    (r : result unit) (s' : state) :
  framework_entry framework_path s = (r, s') → settled s s'.
Proof.
  intros Hrun. split.
  - revert Hrun. unfold framework_entry.
    apply steady_except_NotMatched. steady.
  - revert Hrun. unfold framework_entry, except_NotMatched, bind, on.
    destruct (Bundle_init ClsFramework framework_path s) as [[b|e] s1] eqn:Hinit.
    + apply Bundle_init_ok in Hinit as (-> & Hb & _ & _).
      destruct (sign_child _) as [r1 s2] eqn:Hchild.
      apply child_calm in Hchild as (Hfs & _ & _); [|done]. simpl in *.
      destruct r1 as [[]|e]; [by intros [= <- <-]|].
      destruct e; by intros [= <- <-].
    + pose proof (Bundle_init_state ClsFramework framework_path s) as Hsame.
      rewrite Hinit in Hsame. simpl in Hsame. subst s1.
      destruct e; by intros [= <- <-].
Qed.

(** An entry that classifies as a framework and lets the loop go on has
    had its own executable signed. *)
Lemma framework_entry_signed (framework_path : string) (s s' : state)
    (framework : bundle) :
  (Bundle_init ClsFramework framework_path s).1 = Ok framework →
  framework_entry framework_path s = (Ok tt, s') →
  ∃ owner file, path owner = framework_path ∧
                logged_since s s' (Sign Framework owner file).
Proof.
  intros Hcls. unfold framework_entry, except_NotMatched, bind, on.
  destruct (Bundle_init ClsFramework framework_path s) as [[b|e] s1] eqn:Hinit;
    [|done].
  simpl in Hcls. injection Hcls as ->.
  apply Bundle_init_ok in Hinit as (-> & Hattr & Hpath & Hclass).
  destruct (sign_child _) as [r1 s2] eqn:Hchild.
  pose proof (child_calm {| self := framework; fs := fs s; log := log s |}
                _ _ Hattr Hchild) as (_ & _ & Hr).
  destruct r1 as [[]|e]; [|by destruct e].
  intros [= <-].
  apply child_sealed, sealed_logged in Hchild as (owner & file & Howner & Hlogged).
  simpl in *. rewrite Hclass in Hlogged. exists owner, file.
  split; [congruence|]. exact Hlogged.
Qed.

Definition plugin_entry (appex_path : string) : M unit :=
  e <- exists_ (PosixPath.join appex_path "Info.plist") ;;
  if negb e then ret tt
  else
    appid <- getattr "new_appid" new_appid ;;
    appex <- App_init ClsAppEx appex_path appid ;;
    src <- getattr "new_provision_path" new_provision_path ;;
    on appex (App_resign_with sign_child src).

Lemma steady_plugin_entry (appex_path : string) :
  steady (plugin_entry appex_path).
Proof. unfold plugin_entry. steady. Qed.

(** A plug-in with a property file that lets the loop go on has had its
    own executable signed. *)
Lemma plugin_entry_signed (appex_path : string) (s s' : state) :
  is_Some (fs s !! PosixPath.join appex_path "Info.plist") →
  plugin_entry appex_path s = (Ok tt, s') →
  ∃ owner file, path owner = appex_path ∧
                logged_since s s' (Sign Executable owner file).
Proof.
  intros Hplist Hrun. unfold plugin_entry in Hrun.
  apply bind_Ok_inv in Hrun as (e & s1 & [= <- <-] & Hrun).
  rewrite bool_decide_eq_true_2 in Hrun by done. simpl in Hrun.
  apply bind_Ok_inv in Hrun as (appid & s1 & Happid & Hrun).
  assert (s1 = s) as ->.
  { revert Happid. unfold getattr. by destruct (new_appid (self s)); intros [= <- <-]. }
  apply bind_Ok_inv in Hrun as (appex & s1 & Hinit & Hrun).
  apply App_init_ok in Hinit as (-> & Happex & Hcls).
  apply bind_Ok_inv in Hrun as (src & s1 & Hsrc & Hrun).
  assert (s1 = s) as ->.
  { revert Hsrc. unfold getattr.
    by destruct (new_provision_path (self s)); intros [= <- <-]. }
  unfold on in Hrun.
  destruct (App_resign_with sign_child src _) as [r1 s2] eqn:Hresign.
  injection Hrun as -> <-.
  apply App_resign_with_sealed, sealed_logged in Hresign
    as (owner & file & Howner & Hlogged); [|done].
  simpl in *. rewrite Happex in Howner. rewrite Hcls in Hlogged.
  by exists owner, file.
Qed.

End Children.

Section ChildrenFirst.
Context {platform : Platform}.
Variable sign_child : M unit.
Hypothesis child_steady : steady sign_child.
Hypothesis child_calm : calm sign_child.
Hypothesis child_sealed :
  ∀ s s', sign_child s = (Ok tt, s') → sealed_then_signed s s'.

Lemma sign_dylibs_logged (dir : string) (s s' : state) :
  sign_dylibs dir s = (Ok tt, s') →
  settled s s' ∧
  ∀ file, file ∈ glob (fs s) (PosixPath.join dir "*.dylib") →
          logged_since s s' (Sign Dylib (self s) file).
Proof.
  intros Hrun. split; [split|].
  - by apply steady_sign_dylibs in Hrun.
  - revert Hrun. unfold sign_dylibs, glob_glob. run.
    destruct s as [b store events]. rewrite for_each_sign_binary.
    by intros [= _ <-].
  - intros file Hfile. revert Hrun Hfile. unfold sign_dylibs, glob_glob. run.
    destruct s as [b store events]. rewrite for_each_sign_binary. simpl.
    intros Hrun Hfile.
    destruct (forallb _ _) eqn:Hall; [|done]. injection Hrun as <-.
    rewrite (signed_prefix_all _ _ Hall). eexists. split; [done|].
    apply list_elem_of_fmap. by exists file.
Qed.

Lemma sign_frameworks_logged (frameworks_path : string) (s s' : state) :
  sign_frameworks sign_child frameworks_path s = (Ok tt, s') →
  settled s s' ∧
  (∀ names name framework,
     listdir (fs s) frameworks_path = Some names → name ∈ names →
     (Bundle_init ClsFramework (PosixPath.join frameworks_path name) s).1
     = Ok framework →
     ∃ owner file, path owner = PosixPath.join frameworks_path name ∧
                   logged_since s s' (Sign Framework owner file)) ∧
  (∀ file, file ∈ glob (fs s) (PosixPath.join frameworks_path "*.dylib") →
           ∃ owner, path owner = path (self s) ∧
                    logged_since s s' (Sign Dylib owner file)).
Proof.
  intros Hrun. unfold sign_frameworks in Hrun.
  apply bind_Ok_inv in Hrun as (names & s0 & Hnames & Hrun).
  assert (s0 = s ∧ listdir (fs s) frameworks_path = Some names) as [-> Hlist].
  { revert Hnames. unfold os_listdir.
    by destruct (listdir (fs s) frameworks_path); intros [= <- <-]. }
  apply bind_Ok_inv in Hrun as ([] & s1 & Hloop & Hdylibs).
  apply (for_each_Ok_inv settled) in Hloop as [Hs1 Heach];
    [|apply settled_refl|apply settled_trans|].
  2:{ intros x s2 r s3. apply (framework_entry_settled sign_child); done. }
  apply sign_dylibs_logged in Hdylibs as [Hs' Hfiles].
  split_and!.
  - by eapply settled_trans.
  - intros names' name framework Hlist' Hname Hcls.
    rewrite Hlist in Hlist'. injection Hlist' as <-.
    destruct (Heach name Hname) as (s2 & s3 & [K2 F2] & Hentry & [K3 _]).
    rewrite (Bundle_init_fs _ _ s s2) in Hcls by done.
    destruct (framework_entry_signed sign_child child_calm child_sealed
                _ _ _ _ Hcls Hentry) as (owner & file & Howner & Hlogged).
    exists owner, file. split; [done|].
    eapply logged_since_before; [exact K2|].
    eapply logged_since_after; [exact Hlogged|].
    eapply keeps_trans; [exact K3|]. by destruct Hs'.
  - intros file Hfile. destruct Hs1 as [K1 F1]. rewrite <- F1 in Hfile.
    exists (self s1). split; [by destruct K1 as (_ & _ & ? & _)|].
    eapply logged_since_before; [exact K1|]. by apply Hfiles.
Qed.

Lemma sign_plugins_logged (plugins_path : string) (s s' : state) :
  sign_plugins sign_child plugins_path s = (Ok tt, s') →
  ∀ appex_path,
    appex_path ∈ glob (fs s) (PosixPath.join plugins_path "*.appex") →
    is_Some (fs s !! PosixPath.join appex_path "Info.plist") →
    ∃ owner file, path owner = appex_path ∧
                  logged_since s s' (Sign Executable owner file).
Proof.
  intros Hrun appex_path Hglob Hplist. unfold sign_plugins in Hrun.
  apply bind_Ok_inv in Hrun as (paths & s0 & [= <- <-] & Hloop).
  apply (for_each_Ok_inv keeps) in Hloop as [_ Heach];
    [|apply keeps_refl|apply keeps_trans|].
  2:{ intros x s2 r s3. apply (steady_plugin_entry sign_child); done. }
  destruct (Heach appex_path Hglob) as (s2 & s3 & K2 & Hentry & K3).
  destruct (plugin_entry_signed sign_child child_sealed appex_path s2 s3)
    as (owner & file & Howner & Hlogged).
  - destruct K2 as (_ & Hfiles & _). by apply Hfiles.
  - exact Hentry.
  - exists owner, file. split; [done|].
    eapply logged_since_before; [exact K2|].
    by eapply logged_since_after.
Qed.

End ChildrenFirst.

Lemma logged_in_pre (s s1 : state) (pre : list event) (e : event) :
  log s1 = (log s ++ pre)%list → logged_since s s1 e → e ∈ pre.
Proof.
  intros Hlog (t & Ht & He). rewrite Hlog in Ht.
  apply app_inv_head in Ht. by subst.
Qed.



(** ** The overrides of an application extension *)



(** ** The fallback name of the main executable *)

Lemma take_drop_append (n : nat) (s : string) :
  Py.take n s +:+ Py.drop n s = s.
Proof.
  revert s. induction n as [|n IH]; intros [|a s]; simpl; try done.
  rewrite append_String. by rewrite IH.
Qed.

(** [splitext] cuts its argument in two. *)
Lemma splitext_append (p : string) :
  (PosixPath.splitext p).1 +:+ (PosixPath.splitext p).2 = p.
Proof.
  unfold PosixPath.splitext.
  destruct (_ && _); simpl.
  - unfold Py.slice_to, Py.slice_from. apply take_drop_append.
  - clear. induction p as [|a p IH]; [done|].
    rewrite append_String. by rewrite IH.
Qed.

(** [basename] is what is left of the path after some prefix. *)
Lemma basename_suffix (p : string) :
  ∃ dir, p = dir +:+ PosixPath.basename p.
Proof.
  unfold PosixPath.basename, Py.slice_from.
  eexists. symmetry. apply take_drop_append.
Qed.



(** ** What [info_prop_changed] reports *)

(** [info_prop_changed] answers false for a key exactly when no baseline
    is held, or the baseline is empty, or the key has the same value in
    the baseline and in the current metadata. *)
Theorem info_prop_changed_false (b : bundle) (key : string) :
  info_prop_changed b key = false ↔
  orig_info b = None ∨ orig_info b = Some ∅ ∨
  ∃ orig v, orig_info b = Some orig ∧ info b !! key = Some v ∧
            orig !! key = Some v.
Proof.
  unfold info_prop_changed.
  destruct (orig_info b) as [orig|]; [|by split; [left|]].
  case_bool_decide as Hempty.
  - subst orig. split; [by right; left | done].
  - destruct (info b !! key) as [cur|] eqn:Hcur,
             (orig !! key) as [old|] eqn:Hold; simpl.
    + destruct (Py.eqb cur old) eqn:Heq; simpl.
      * apply eqb_eq in Heq as ->. split; [|done]. intros _.
        right. right. by exists orig, old.
      * apply eqb_neq in Heq. split; [done|].
        intros [?|[[= ?]|(orig' & v & [= <-] & [= <-] & Hv)]]; try done.
        congruence.
    + split; [done|].
      intros [?|[[= ?]|(orig' & v & [= <-] & _ & Hv)]]; try done. congruence.
    + split; [done|].
      intros [?|[[= ?]|(orig' & v & [= <-] & Hv & _)]]; done.
    + split; [done|].
      intros [?|[[= ?]|(orig' & v & [= <-] & Hv & _)]]; done.
Qed.

(** ** The recursion bound plays no role once it suffices *)

(** [m2] agrees with [m1] on every run of [m1] that does not hit the
    recursion bound. *)
Definition within {A} (m1 m2 : M A) : Prop :=
  ∀ s r s', m1 s = (r, s') → r ≠ Raise RecursionLimit → m2 s = (r, s').

Lemma within_refl {A} (m : M A) : within m m.
Proof. by intros s r s' Hrun _. Qed.

Lemma within_bind {A B} (m1 m2 : M A) (k1 k2 : A → M B) :
  within m1 m2 → (∀ a, within (k1 a) (k2 a)) →
  within (bind m1 k1) (bind m2 k2).
Proof.
  intros Hm Hk s r s'. unfold bind.
  destruct (m1 s) as [[a|e] s1] eqn:Hrun.
  - rewrite (Hm _ _ _ Hrun) by done. apply Hk.
  - intros [= <- <-] He. rewrite (Hm _ _ _ Hrun); [done|]. congruence.
Qed.

Lemma within_except_NotMatched (m1 m2 : M unit) :
  within m1 m2 → within (except_NotMatched m1) (except_NotMatched m2).
Proof.
  intros Hm s r s'. unfold except_NotMatched.
  destruct (m1 s) as [[[]|e] s1] eqn:Hrun.
  - intros [= <- <-] _. by rewrite (Hm _ _ _ Hrun).
  - destruct e; intros [= <- <-] Hr; try done;
      by rewrite (Hm _ _ _ Hrun).
Qed.

Lemma within_on {A} (b : bundle) (m1 m2 : M A) :
  within m1 m2 → within (on b m1) (on b m2).
Proof.
  intros Hm s r s'. unfold on.
  destruct (m1 _) as [r1 s1] eqn:Hrun. intros [= <- <-] Hr.
  by rewrite (Hm _ _ _ Hrun).
Qed.

Lemma within_for_each {A} (l : list A) (body1 body2 : A → M unit) :
  (∀ a, within (body1 a) (body2 a)) →
  within (for_each l body1) (for_each l body2).
Proof.
  intros Hbody. induction l as [|a l IH]; simpl.
  - apply within_refl.
  - apply within_bind; [apply Hbody|]. by intros _.
Qed.

Section Fuel.
Context {platform : Platform}.

Lemma within_sign_with (child1 child2 : M unit) :
  within child1 child2 → within (sign_with child1) (sign_with child2).
Proof.
  intros Hchild. unfold sign_with.
  apply within_bind; [apply within_refl|]. intros b.
  apply within_bind; [apply within_refl|]. intros e1.
  apply within_bind.
  { destruct e1; [|apply within_refl]. unfold sign_frameworks.
    apply within_bind; [apply within_refl|]. intros names.
    apply within_bind; [|intros _; apply within_refl].
    apply within_for_each. intros name.
    apply within_except_NotMatched.
    apply within_bind; [apply within_refl|]. intros framework.
    by apply within_on. }
  intros _. apply within_bind; [apply within_refl|]. intros _.
  apply within_bind; [apply within_refl|]. intros e2.
  apply within_bind; [|intros _; apply within_refl].
  destruct e2; [|apply within_refl]. unfold sign_plugins.
  apply within_bind; [apply within_refl|]. intros appex_paths.
  apply within_for_each. intros appex_path.
  apply within_bind; [apply within_refl|]. intros e.
  destruct (negb e); [apply within_refl|].
  apply within_bind; [apply within_refl|]. intros appid.
  apply within_bind; [apply within_refl|]. intros appex.
  apply within_bind; [apply within_refl|]. intros src.
  apply within_on. unfold App_resign_with.
  repeat (apply within_bind; [apply within_refl|]; intros _).
  done.
Qed.

Lemma within_sign_succ (depth : nat) : within (sign depth) (sign (S depth)).
Proof.
  induction depth as [|depth IH].
  - by intros s r s' [= <- <-].
  - change (within (sign_with (sign depth)) (sign_with (sign (S depth)))).
    by apply within_sign_with.
Qed.

Lemma within_sign_le (depth depth' : nat) :
  (depth ≤ depth')%nat → within (sign depth) (sign depth').
Proof.
  induction 1 as [|depth' _ IH]; [apply within_refl|].
  intros s r s' Hrun Hr. apply within_sign_succ; [|done]. by apply IH.
Qed.

End Fuel.

(** A run of [Bundle.resign] or [App.resign] that ends without hitting
    the recursion bound, whether it returns or raises, ends the same way
    under every larger bound: the result, the object, the file store and
    the log do not depend on the bound. *)
Theorem resign_bound_irrelevant {platform : Platform} (depth depth' : nat)
    (src : string) (s : state) (r : result unit) (s' : state) :
  (depth ≤ depth')%nat →
  r ≠ Raise RecursionLimit →
  (Bundle_resign depth s = (r, s') → Bundle_resign depth' s = (r, s')) ∧
  (App_resign depth src s = (r, s') → App_resign depth' src s = (r, s')).
Proof.
  intros Hle Hr. split.
  - intros Hrun. by apply (within_sign_le depth depth' Hle).
  - intros Hrun. revert Hrun Hr. unfold App_resign, App_resign_with.
    revert s r s'.
    change (within
      (load_provision_data src ;; change_bundle_id ;; copy_provision src ;;
       create_entitlements ;; Bundle_resign depth)
      (load_provision_data src ;; change_bundle_id ;; copy_provision src ;;
       create_entitlements ;; Bundle_resign depth')).
    repeat (apply within_bind; [apply within_refl|]; intros _).
    by apply within_sign_le.
Qed.

Lemma resign_bound_irrelevant_witness :
  App_resign (platform := Demo.demo) 7 "/p.mobileprovision"
    (Demo.on_disk Demo.app_object)
  = App_resign (platform := Demo.demo) 3 "/p.mobileprovision"
      (Demo.on_disk Demo.app_object).
Proof.
  assert ((App_resign (platform := Demo.demo) 3 "/p.mobileprovision"
             (Demo.on_disk Demo.app_object)).1 = Ok tt) as Hok
    by (vm_compute; reflexivity).
  destruct (App_resign (platform := Demo.demo) 3 "/p.mobileprovision"
              (Demo.on_disk Demo.app_object)) as [r s'] eqn:Hrun.
  simpl in Hok.
  refine (proj2 (resign_bound_irrelevant (platform := Demo.demo) 3 7
                   "/p.mobileprovision" (Demo.on_disk Demo.app_object)
                   r s' _ _) Hrun).
  - lia.
  - rewrite Hok. discriminate.
Defined.

(** ** What passes for a native bundle *)

Lemma startswith_prefix (p s : string) :
  Py.startswith p s = true ↔ ∃ post, s = p +:+ post.
Proof.
  revert s. induction p as [|a p IH]; intros s.
  - split; [|done]. intros _. exists s. by rewrite append_empty.
  - destruct s as [|b s]; simpl.
    + split; [done|]. intros [post Hpost]. by rewrite append_String in Hpost.
    + rewrite andb_true_iff, bool_decide_eq_true, IH. split.
      * intros [-> [post ->]]. exists post. by rewrite append_String.
      * intros [post Hpost]. rewrite append_String in Hpost.
        injection Hpost as -> ->. split; [done|]. by exists post.
Qed.

Lemma drop_append (pre r : string) :
  Py.drop (String.length pre) (pre +:+ r) = r.
Proof.
  induction pre as [|a pre IH].
  - by rewrite append_empty.
  - rewrite append_String. simpl. exact IH.
Qed.

Lemma length_append (a b : string) :
  String.length (a +:+ b) = (String.length a + String.length b)%nat.
Proof.
  induction a as [|c a IH].
  - by rewrite append_empty.
  - rewrite append_String. simpl. by rewrite IH.
Qed.

(** [needle in hay] on strings is the substring test. *)
Lemma contains_substring (needle hay : string) :
  (0 <=? Py.find needle hay) = true ↔
  ∃ pre post, hay = pre +:+ needle +:+ post.
Proof.
  rewrite Z.leb_le. split.
  - intros Hfind.
    destruct (find_from_spec needle hay 0) as [[Hf _]|(i & _ & [_ Hocc] & _)];
      [unfold Py.find in Hfind; lia|].
    apply startswith_prefix in Hocc as [post Hpost].
    exists (Py.take i hay), post. rewrite <- Hpost. by rewrite take_drop_append.
  - intros (pre & post & ->).
    destruct (find_from_spec needle (pre +:+ needle +:+ post) 0)
      as [[_ Habs]|(i & Hf & _)]; [|unfold Py.find; lia].
    destruct (Habs (String.length pre)). split.
    + rewrite length_append. lia.
    + rewrite drop_append. apply startswith_prefix. by exists post.
Qed.

(** [is_info_plist_native] is as lax as the operator [in]: a property
    list passes exactly when it is a dictionary whose
    [CFBundleSupportedPlatforms] is a list with the element ["iPhoneOS"],
    or a dictionary with the key ["iPhoneOS"], or a string in which
    ["iPhoneOS"] occurs somewhere.  And when the test raises, it raises
    the type error. *)
Theorem is_info_plist_native_accepts (plist : value) :
  (is_info_plist_native plist = Ok true ↔
   ∃ d platforms,
     plist = VDict d ∧
     d !! "CFBundleSupportedPlatforms" = Some platforms ∧
     match platforms with
     | VList l => VStr "iPhoneOS" ∈ l
     | VDict m => is_Some (m !! "iPhoneOS")
     | VStr s => ∃ pre post, s = pre +:+ "iPhoneOS" +:+ post
     | VInt _ => False
     end) ∧
  (∀ e, is_info_plist_native plist = Raise e → e = TypeError).
Proof.
  split.
  - split.
    + intros Hnat. destruct (is_info_plist_native_dict _ Hnat) as [d ->].
      revert Hnat. unfold is_info_plist_native. simpl.
      destruct (d !! "CFBundleSupportedPlatforms") as [platforms|] eqn:Hd;
        simpl; [|done].
      intros Hin. exists d, platforms. split_and!; [done..|].
      destruct platforms as [s|z|l|m]; simpl in Hin.
      * apply contains_substring. by injection Hin.
      * done.
      * injection Hin as Hin. apply existsb_exists in Hin as (x & Hx & Heq).
        apply (eqb_eq (VStr "iPhoneOS") x) in Heq as <-.
        by apply list_elem_of_In.
      * injection Hin as Hin. by apply bool_decide_eq_true in Hin.
    + intros (d & platforms & -> & Hd & Hin).
      unfold is_info_plist_native. simpl. rewrite Hd. simpl.
      destruct platforms as [s|z|l|m]; simpl.
      * f_equal. by apply contains_substring.
      * done.
      * f_equal. apply existsb_exists. exists (VStr "iPhoneOS").
        split; [by apply list_elem_of_In|exact (eqb_refl (VStr "iPhoneOS"))].
      * f_equal. by apply bool_decide_eq_true.
  - intros e. unfold is_info_plist_native, Dyn.contains, Dyn.getitem.
    intros Hr. repeat case_match; simplify_eq; done.
Qed.

Lemma is_info_plist_native_accepts_witness :
  is_info_plist_native
    (VDict {["CFBundleSupportedPlatforms" := VStr "AppleiPhoneOSSimulator"]})
  = Ok true.
Proof.
  apply (proj2 (proj1 (is_info_plist_native_accepts _))).
  eexists _, _. split_and!.
  - reflexivity.
  - vm_compute. reflexivity.
  - by exists "Apple", "Simulator".
Defined.
